(** * HasteFS: the in-memory file-map index of metro-file-map

    A shallow embedding of [packages/metro-file-map/src/HasteFS.js].

    The class keeps a root directory and a reference to a JavaScript [Map]
    from paths to metadata records (arrays).  Maps and arrays are mutable
    objects that callers can hold on to, so both live in an explicit heap
    and are passed around by reference; the methods are state transformers
    (mutators) or readers (queries) over that heap. *)

From Stdlib Require Import String Ascii ZArith.
From stdpp Require Import base option list gmap strings.

Local Open Scope string_scope.
Local Open Scope list_scope.

(** ** JavaScript values *)

Inductive number :=
| Num (z : Z)
| NaN.

Inductive value :=
| VUndefined
| VNull
| VBool (b : bool)
| VNumber (n : number)
| VString (s : string).

(** The outcome of a call: a returned value or a thrown [Error]. *)
Inductive completion (A : Type) :=
| Return (a : A)
| Throw (message : string).
Arguments Return {A} a.
Arguments Throw {A} message.

(** [ToBoolean]. *)
Definition truthy (v : value) : bool :=
  match v with
  | VUndefined | VNull => false
  | VBool b => b
  | VNumber (Num z) => negb (Z.eqb z 0)
  | VNumber NaN => false
  | VString s => negb (String.eqb s "")
  end.

(** [a ?? b]. *)
Definition nullish_coalesce (a b : value) : value :=
  match a with
  | VUndefined | VNull => b
  | _ => a
  end.

(** [v === 0]. *)
Definition strict_eq_zero (v : value) : bool :=
  match v with
  | VNumber (Num z) => Z.eqb z 0
  | _ => false
  end.

(** [typeof v === 'number']. *)
Definition typeof_number (v : value) : bool :=
  match v with
  | VNumber _ => true
  | _ => false
  end.

(** [invariant(condition, message)] of the npm package of that name. *)
Definition invariant (condition : bool) (message : string) : completion unit :=
  if condition then Return tt else Throw message.

(** ** The string methods the class calls *)

Module JSString.

(** [s.startsWith(p)], also [s.indexOf(p) === 0]. *)
Fixpoint startsWith (s p : string) : bool :=
  match p with
  | EmptyString => true
  | String a p' =>
      match s with
      | EmptyString => false
      | String b s' => Ascii.eqb a b && startsWith s' p'
      end
  end.

(** [s.substr(n)]. *)
Fixpoint substr (s : string) (n : nat) : string :=
  match n with
  | O => s
  | S n' =>
      match s with
      | EmptyString => EmptyString
      | String _ s' => substr s' n'
      end
  end.

(** [s.includes(p)]. *)
Fixpoint includes (s p : string) : bool :=
  startsWith s p ||
  match s with
  | EmptyString => false
  | String _ s' => includes s' p
  end.

(** [s.replace(/\\/g, '/')]. *)
Fixpoint replace_backslashes (s : string) : string :=
  match s with
  | EmptyString => EmptyString
  | String c s' =>
      String (if Ascii.eqb c "\"%char then "/"%char else c)
             (replace_backslashes s')
  end.

(** [s.split(d)] for a separator [d] of one character. *)
Fixpoint split (s : string) (d : ascii) : list string :=
  match s with
  | EmptyString => [EmptyString]
  | String c s' =>
      if Ascii.eqb c d then EmptyString :: split s' d
      else match split s' d with
           | [] => [String c EmptyString]
           | h :: t => String c h :: t
           end
  end.

(** [parts.join(d)]. *)
Fixpoint join (parts : list string) (d : ascii) : string :=
  match parts with
  | [] => EmptyString
  | [p] => p
  | p :: rest => p +:+ String d (join rest d)
  end.

(** The character [d] does not occur in [s]. *)
Fixpoint free_of (d : ascii) (s : string) : bool :=
  match s with
  | EmptyString => true
  | String c s' => negb (Ascii.eqb c d) && free_of d s'
  end.

End JSString.

(** ** JavaScript [Map] with string keys

    The entries in insertion order: iteration order is observable. *)

Module JSMap.
Section Ops.
Context {V : Type}.

Fixpoint get (k : string) (m : list (string * V)) : option V :=
  match m with
  | [] => None
  | (k', v) :: m' => if String.eqb k k' then Some v else get k m'
  end.

(** [m.set(k, v)]: an existing key keeps its place. *)
Fixpoint set (k : string) (v : V) (m : list (string * V)) : list (string * V) :=
  match m with
  | [] => [(k, v)]
  | (k', v') :: m' =>
      if String.eqb k k' then (k, v) :: m' else (k', v') :: set k v m'
  end.

Fixpoint delete (k : string) (m : list (string * V)) : list (string * V) :=
  match m with
  | [] => []
  | (k', v) :: m' =>
      if String.eqb k k' then delete k m' else (k', v) :: delete k m'
  end.

Definition keys (m : list (string * V)) : list string := map fst m.

(** [new Map(entries)]. *)
Definition of_entries (es : list (string * V)) : list (string * V) :=
  fold_left (λ m e, set (fst e) (snd e) m) es [].
End Ops.
End JSMap.

(** ** Paths *)

Definition Path := string.

(** Node's [path] module, as far as the class uses it, together with
    [fastPath.resolve].

    Modelled from the spec: [lib/fast_path.js] is not among the sources; the
    spec lists "absolute-path resolution from a root and a relative path"
    among the services of the path utility, so [fastPath_resolve] is taken
    as one of its operations. *)
Class PathModule := {
  sep : string;
  isAbsolute : Path -> bool;
  normalize : Path -> Path;
  path_relative : Path -> Path -> Path;
  fastPath_resolve : Path -> Path -> Path;
}.

(** Modelled from the spec: [fastPath.relative] of [lib/fast_path.js], which
    is not among the sources.  "Fast path: assume [path] is already under
    root and strip the prefix; fall back to a general relative-path
    computation." *)
Definition fastPath_relative `{path : PathModule} (rootDir filename : Path) : Path :=
  if JSString.startsWith filename (rootDir +:+ sep)
  then JSString.substr filename (String.length rootDir + 1)
  else path_relative rootDir filename.

(** Modelled from the spec: [constants.js] is not among the sources.  The
    record-field layout assigns an index of the metadata tuple to each field
    and fixes "the delimiter character used to join dependency specifiers". *)
Class Constants := {
  ID : nat;
  MTIME : nat;
  SIZE : nat;
  DEPENDENCIES : nat;
  SHA1 : nat;
  SYMLINK : nat;
  DEPENDENCY_DELIM : ascii;
}.

(** ** The heap *)

Definition loc := positive.

(** A metadata record: the elements of the array. *)
Definition FileMetaData := list value.

(** [FileData = Map<Path, FileMetaData>]: the entries hold references. *)
Definition FileData := list (Path * loc).

Record Heap := {
  arrays : gmap loc FileMetaData;
  maps : gmap loc FileData;
}.

(** [r[i]]: reading past the end gives [undefined]. *)
Definition array_get (σ : Heap) (r : loc) (i : nat) : value :=
  default VUndefined ((arrays σ !!! r) !! i).

(** [r[i] = x]: writing past the end extends the array. *)
Definition array_set (elems : FileMetaData) (i : nat) (x : value) : FileMetaData :=
  if decide (i < length elems)
  then <[i := x]> elems
  else elems ++ replicate (i - length elems) VUndefined ++ [x].

Definition array_write (r : loc) (i : nat) (x : value) (σ : Heap) : Heap :=
  {| arrays := <[r := array_set (arrays σ !!! r) i x]> (arrays σ);
     maps := maps σ |}.

Definition alloc_array (elems : FileMetaData) (σ : Heap) : loc * Heap :=
  let r := fresh (dom (arrays σ)) in
  (r, {| arrays := <[r := elems]> (arrays σ); maps := maps σ |}).

Definition alloc_map (entries : FileData) (σ : Heap) : loc * Heap :=
  let m := fresh (dom (maps σ)) in
  (m, {| arrays := arrays σ; maps := <[m := entries]> (maps σ) |}).

Definition map_entries (σ : Heap) (m : loc) : FileData := maps σ !!! m.

Definition map_update (m : loc) (entries : FileData) (σ : Heap) : Heap :=
  {| arrays := arrays σ; maps := <[m := entries]> (maps σ) |}.

(** ** The class *)

Record HasteFS := {
  rootDir : Path;
  files : loc;
}.

Record FileStats := {
  fileType : ascii;
  modifiedTime : value;
}.

(** A regular expression object.  [exec_at i s] is the match the engine
    finds in [s] from index [i] on (at [i] exactly for a sticky
    expression), given by the index where it ends.  [lastIndex] is the
    property of the object that [test] reads and writes when the
    expression has the [g] or the [y] flag. *)
Record RegExp := {
  global_or_sticky : bool;
  lastIndex : nat;
  exec_at : nat -> string -> option nat;
}.

Definition set_lastIndex (r : RegExp) (i : nat) : RegExp :=
  {| global_or_sticky := global_or_sticky r;
     lastIndex := i;
     exec_at := exec_at r |}.

(** [r.test(s)]: the answer, and [r] as the call leaves it.  With the [g]
    or the [y] flag the match starts at [lastIndex], which then moves to
    the end of the match, or back to 0 when there is none; without them
    the match starts at 0 and the object is left alone. *)
Definition test (r : RegExp) (s : string) : bool * RegExp :=
  if global_or_sticky r then
    match (if decide (String.length s < lastIndex r) then None
           else exec_at r (lastIndex r) s) with
    | Some e => (true, set_lastIndex r e)
    | None => (false, set_lastIndex r 0)
    end
  else
    (match exec_at r 0 s with Some _ => true | None => false end, r).

Record Context_ := {
  recursive : bool;
  filter_ : RegExp;
}.

Section HasteFS.
Context `{path : PathModule} `{H : Constants}.

Definition constructor (rootDir : Path) (files : loc) : HasteFS :=
  {| rootDir := rootDir; files := files |}.

Definition _normalizePath (this : HasteFS) (relativeOrAbsolutePath : Path) : Path :=
  if isAbsolute relativeOrAbsolutePath
  then fastPath_relative (rootDir this) relativeOrAbsolutePath
  else normalize relativeOrAbsolutePath.

Definition remove (this : HasteFS) (filePath : Path) (σ : Heap)
  : option loc * Heap :=
  let normalPath := _normalizePath this filePath in
  match JSMap.get normalPath (map_entries σ (files this)) with
  | None => (None, σ)
  | Some fileMetadata =>
      (Some fileMetadata,
       map_update (files this)
         (JSMap.delete normalPath (map_entries σ (files this))) σ)
  end.

Definition bulkAddOrModify (this : HasteFS) (changedFiles : loc) (σ : Heap) : Heap :=
  fold_left
    (λ σ' e, map_update (files this)
               (JSMap.set (fst e) (snd e) (map_entries σ' (files this))) σ')
    (map_entries σ changedFiles) σ.

Definition addOrModify (this : HasteFS) (filePath : Path) (metadata : loc)
    (σ : Heap) : Heap :=
  map_update (files this)
    (JSMap.set (_normalizePath this filePath) metadata
       (map_entries σ (files this))) σ.

(** [Array.from(this.#files.entries(), ([k, v]) => [k, [...v]])]: every
    [[...v]] is a new array. *)
Fixpoint copy_entries (entries : FileData) (σ : Heap) : FileData * Heap :=
  match entries with
  | [] => ([], σ)
  | (k, v) :: rest =>
      let '(v', σ1) := alloc_array (arrays σ !!! v) σ in
      let '(rest', σ2) := copy_entries rest σ1 in
      ((k, v') :: rest', σ2)
  end.

Definition getSerializableSnapshot (this : HasteFS) (σ : Heap) : loc * Heap :=
  let '(pairs, σ1) := copy_entries (map_entries σ (files this)) σ in
  alloc_map (JSMap.of_entries pairs) σ1.

Definition _getFileData (this : HasteFS) (filePath : Path) (σ : Heap)
  : option loc :=
  match JSMap.get filePath (map_entries σ (files this)) with
  | Some optimisticMetadata => Some optimisticMetadata
  | None => JSMap.get (_normalizePath this filePath) (map_entries σ (files this))
  end.

(** [(fileMetadata && fileMetadata[i]) ?? null]. *)
Definition field_or_null (σ : Heap) (fileMetadata : option loc) (i : nat) : value :=
  nullish_coalesce
    (match fileMetadata with
     | None => VUndefined
     | Some r => array_get σ r i
     end) VNull.

Definition getModuleName (this : HasteFS) (file : Path) (σ : Heap) : value :=
  field_or_null σ (_getFileData this file σ) ID.

Definition getSize (this : HasteFS) (file : Path) (σ : Heap) : value :=
  field_or_null σ (_getFileData this file σ) SIZE.

(** [null] is [None]; a dependency field that is truthy and not a string
    has no [split] method, and calling it is a [TypeError]. *)
Definition getDependencies (this : HasteFS) (file : Path) (σ : Heap)
  : completion (option (list string)) :=
  match _getFileData this file σ with
  | Some fileMetadata =>
      if truthy (array_get σ fileMetadata DEPENDENCIES)
      then match array_get σ fileMetadata DEPENDENCIES with
           | VString deps => Return (Some (JSString.split deps DEPENDENCY_DELIM))
           | _ => Throw "fileMetadata[H.DEPENDENCIES].split is not a function"
           end
      else Return (Some [])
  | None => Return None
  end.

Definition getSha1 (this : HasteFS) (file : Path) (σ : Heap) : value :=
  field_or_null σ (_getFileData this file σ) SHA1.

Definition exists_ (this : HasteFS) (file : Path) (σ : Heap) : bool :=
  match _getFileData this file σ with
  | Some _ => true
  | None => false
  end.

Definition getFileIterator (this : HasteFS) (σ : Heap) : list Path :=
  JSMap.keys (map_entries σ (files this)).

Definition getAbsoluteFileIterator (this : HasteFS) (σ : Heap) : list Path :=
  map (fastPath_resolve (rootDir this)) (getFileIterator this σ).

Definition getAllFiles (this : HasteFS) (σ : Heap) : list Path :=
  getAbsoluteFileIterator this σ.

Definition linkStats (this : HasteFS) (file : Path) (σ : Heap)
  : completion (option FileStats) :=
  match _getFileData this file σ with
  | None => Return None
  | Some fileMetadata =>
      let fileType :=
        if strict_eq_zero (array_get σ fileMetadata SYMLINK)
        then "f"%char else "l"%char in
      let modifiedTime := array_get σ fileMetadata MTIME in
      match invariant (typeof_number modifiedTime)
              "File in HasteFS missing modified time" with
      | Throw message => Throw message
      | Return _ =>
          Return (Some {| fileType := fileType; modifiedTime := modifiedTime |})
      end
  end.

(** The body of the [for] loop of [matchFilesWithContext], over the files
    still to come from the iterator; [files] is the array pushed to, and
    [filter] is the filter of the context as the calls of [test] so far
    have left it. *)
Fixpoint matchFilesWithContext_loop (root : Path) (recursive : bool)
    (filter : RegExp) (iterator : list Path) (files : list Path)
  : list Path * RegExp :=
  match iterator with
  | [] => (files, filter)
  | file :: rest =>
      let filePath := fastPath_relative root file in
      let isUnderRoot :=
        truthy (VString filePath) && negb (JSString.startsWith filePath "..") in
      if negb isUnderRoot
      then matchFilesWithContext_loop root recursive filter rest files
      else if negb recursive && JSString.includes filePath sep
      then matchFilesWithContext_loop root recursive filter rest files
      else
        let '(matched, filter') :=
          test filter ("./" +:+ JSString.replace_backslashes filePath) in
        if matched
        then matchFilesWithContext_loop root recursive filter' rest (files ++ [file])
        else matchFilesWithContext_loop root recursive filter' rest files
  end.

(** The files returned, and the filter object as the call leaves it. *)
Definition matchFilesWithContext (this : HasteFS) (root : Path)
    (context : Context_) (σ : Heap) : list Path * RegExp :=
  matchFilesWithContext_loop root (recursive context) (filter_ context)
    (getAbsoluteFileIterator this σ) [].

Definition getRealPath (this : HasteFS) (filePath : Path) (σ : Heap)
  : completion Path * Heap :=
  (Throw "HasteFS.getRealPath() is not implemented.", σ).

End HasteFS.

(** ** Node's [path.posix]

    The instance of the path utility on a POSIX host, after
    [lib/path.js] of Node; [cwd] is the working directory of the process,
    which [path.resolve] falls back to. *)

Module Posix.

Definition segments (p : string) : list string := JSString.split p "/"%char.

(** [normalizeString(path, allowAboveRoot, '/', isPosixPathSeparator)],
    on the segments between slashes; [res] holds the segments kept so
    far, last one first. *)
Fixpoint normalizeSegments (allowAboveRoot : bool) (segs res : list string)
  : list string :=
  match segs with
  | [] => rev res
  | seg :: rest =>
      if String.eqb seg "" || String.eqb seg "." then
        normalizeSegments allowAboveRoot rest res
      else if String.eqb seg ".." then
        match res with
        | last :: res' =>
            if String.eqb last ".."
            then normalizeSegments allowAboveRoot rest
                   (if allowAboveRoot then ".." :: res else res)
            else normalizeSegments allowAboveRoot rest res'
        | [] =>
            normalizeSegments allowAboveRoot rest
              (if allowAboveRoot then [".."] else [])
        end
      else normalizeSegments allowAboveRoot rest (seg :: res)
  end.

Definition normalizeString (p : string) (allowAboveRoot : bool) : string :=
  JSString.join (normalizeSegments allowAboveRoot (segments p) []) "/"%char.

Definition isAbsolute (p : string) : bool := JSString.startsWith p "/".

Fixpoint endsWithSlash (p : string) : bool :=
  match p with
  | EmptyString => false
  | String c EmptyString => Ascii.eqb c "/"%char
  | String _ p' => endsWithSlash p'
  end.

Definition normalize (p : string) : string :=
  if String.eqb p "" then "."
  else
    let isAbs := isAbsolute p in
    let trailingSeparator := endsWithSlash p in
    let p' := normalizeString p (negb isAbs) in
    if String.eqb p' "" then
      if isAbs then "/" else if trailingSeparator then "./" else "."
    else
      let p'' := if trailingSeparator then p' +:+ "/" else p' in
      if isAbs then "/" +:+ p'' else p''.

(** The loop of [resolve], from the last argument down to [cwd]. *)
Fixpoint resolveLoop (args : list string) (resolvedPath : string) : string * bool :=
  match args with
  | [] => (resolvedPath, false)
  | p :: rest =>
      if String.eqb p "" then resolveLoop rest resolvedPath
      else
        let resolvedPath' := p +:+ "/" +:+ resolvedPath in
        if isAbsolute p then (resolvedPath', true)
        else resolveLoop rest resolvedPath'
  end.

Definition resolve (cwd : string) (args : list string) : string :=
  let '(resolvedPath, resolvedAbsolute) := resolveLoop (rev (cwd :: args)) "" in
  let resolvedPath' := normalizeString resolvedPath (negb resolvedAbsolute) in
  if resolvedAbsolute then "/" +:+ resolvedPath'
  else if String.eqb resolvedPath' "" then "." else resolvedPath'.

Fixpoint dropCommon (from to : list string) : list string * list string :=
  match from, to with
  | f :: from', t :: to' =>
      if String.eqb f t then dropCommon from' to' else (from, to)
  | _, _ => (from, to)
  end.

(** [relative(from, to)]: one [..] for each segment of [from] past the
    common directory, then the rest of [to]. *)
Definition relative (cwd from to : string) : string :=
  if String.eqb from to then ""
  else
    let from' := resolve cwd [from] in
    let to' := resolve cwd [to] in
    if String.eqb from' to' then ""
    else
      let '(up, down) :=
        dropCommon (normalizeSegments false (segments from') [])
                   (normalizeSegments false (segments to') []) in
      JSString.join (map (λ _, "..") up ++ down) "/"%char.

Definition path (cwd : string) : PathModule :=
  Build_PathModule "/" isAbsolute normalize (relative cwd)
    (λ rootDir relativeFilename, resolve cwd [rootDir; relativeFilename]).

End Posix.

(** A field layout in the order of the spec's table of fields, with the NUL
    character as the delimiter. *)
Definition layout : Constants :=
  {| ID := 0; MTIME := 1; SIZE := 2; DEPENDENCIES := 3; SHA1 := 4; SYMLINK := 5;
     DEPENDENCY_DELIM := "000"%char |}.

(** The file-map invariant of the data model: every key stored is
    canonical, that is, normalization leaves it as it is. *)
Definition canonical_keys `{path : PathModule} (this : HasteFS) (σ : Heap) : Prop :=
  Forall (λ k, _normalizePath this k = k) (getFileIterator this σ).

(** The record stored for a path: the one at its normalized key. *)
Definition stored `{path : PathModule} (this : HasteFS) (σ : Heap) (p : Path) : option loc :=
  JSMap.get (_normalizePath this p) (map_entries σ (files this)).

(** ** A small project

    The index of [/proj] with two source files and a symbolic link. *)

Definition posix : PathModule := Posix.path "/".

Definition example_heap : Heap :=
  {| arrays :=
       <[1%positive :=
           [VString "a"; VNumber (Num 1700000000000); VNumber (Num 12);
            VString (JSString.join ["b.js"; "c.js"] "000"%char);
            VString "da39a3ee"; VNumber (Num 0)]]>
       (<[2%positive :=
           [VUndefined; VNumber (Num 1700000000001); VNumber (Num 7);
            VUndefined; VUndefined; VNumber (Num 0)]]>
       (<[3%positive :=
           [VUndefined; VNumber (Num 1700000000002); VNumber (Num 0);
            VString ""; VNull; VString "../src/a.js"]]> ∅));
     maps :=
       <[1%positive :=
           [("src/a.js", 1%positive); ("src/sub/b.js", 2%positive);
            ("link.js", 3%positive)]]> ∅ |}.

Definition example_fs : HasteFS := {| rootDir := "/proj"; files := 1%positive |}.

(** A file map that breaks the invariant: the index of [/proj] keyed by an
    absolute path. *)
Definition absolute_key_heap : Heap :=
  {| arrays := <[1%positive := [VString "a"; VNumber (Num 1); VNumber (Num 12)]]> ∅;
     maps := <[1%positive := [("/proj/a.js", 1%positive)]]> ∅ |}.

(** ** The spec's wording of two operations, for comparison *)

Section SpecWording.
Context `{path : PathModule}.

(** A string satisfies a regular expression when the expression has a
    match in it. *)
Definition satisfies (s : string) (r : RegExp) : bool :=
  match exec_at r 0 s with
  | Some _ => true
  | None => false
  end.

(** The context query as the spec words it: keep the files whose path
    relative to the query root does not start with the parent-directory
    marker, which have no separator in it unless the search is
    recursive, and whose match subject satisfies the filter. *)
Definition matchFilesWithContext_spec (this : HasteFS) (root : Path)
    (context : Context_) (σ : Heap) : list Path :=
  List.filter
    (λ file,
       let filePath := fastPath_relative root file in
       negb (JSString.startsWith filePath "..") &&
       (recursive context || negb (JSString.includes filePath sep)) &&
       satisfies ("./" +:+ JSString.replace_backslashes filePath)
         (filter_ context))
    (getAbsoluteFileIterator this σ).

(** [remove] as the lookup contract would have it: the path exactly as
    given first, the normalized path only on a miss. *)
Definition remove_two_tier (this : HasteFS) (filePath : Path) (σ : Heap)
  : option loc * Heap :=
  let entries := map_entries σ (files this) in
  match JSMap.get filePath entries with
  | Some fileMetadata =>
      (Some fileMetadata,
       map_update (files this) (JSMap.delete filePath entries) σ)
  | None =>
      let normalPath := _normalizePath this filePath in
      match JSMap.get normalPath entries with
      | None => (None, σ)
      | Some fileMetadata =>
          (Some fileMetadata,
           map_update (files this) (JSMap.delete normalPath entries) σ)
      end
  end.
End SpecWording.

(** The expression [^\.\/]: its only match is [./] at the start of the
    string. *)
Definition starts_with_dot_slash (i : nat) (s : string) : option nat :=
  if Nat.eqb i 0 && JSString.startsWith s "./" then Some 2 else None.

(** The filter [/^\.\//], which accepts the subjects that start with [./]. *)
Definition any_subject : RegExp :=
  {| global_or_sticky := false; lastIndex := 0;
     exec_at := starts_with_dot_slash |}.

(** The same expression with the [g] flag, [/^\.\//g]. *)
Definition any_subject_global : RegExp :=
  {| global_or_sticky := true; lastIndex := 0;
     exec_at := starts_with_dot_slash |}.

(** ** What a snapshot is compared by *)

(** The contents of the file map at [m]: each key with the elements of its
    record, in iteration order.  This is what a writer would serialize. *)
Definition contents (σ : Heap) (m : loc) : list (Path * FileMetaData) :=
  map (λ e, (e.1, arrays σ !!! e.2)) (map_entries σ m).

(** The records the file map at [m] refers to. *)
Definition records (σ : Heap) (m : loc) : list loc :=
  map snd (map_entries σ m).

(** What the owner of an index and the holders of its records can do to the
    heap: call a mutator of an index, or assign to an element of a record. *)
Inductive step :=
| CallAddOrModify (fs : HasteFS) (filePath : Path) (metadata : loc)
| CallBulkAddOrModify (fs : HasteFS) (changedFiles : loc)
| CallRemove (fs : HasteFS) (filePath : Path)
| WriteElement (r : loc) (i : nat) (x : value).

Definition run_step `{path : PathModule} (σ : Heap) (s : step) : Heap :=
  match s with
  | CallAddOrModify fs filePath metadata => addOrModify fs filePath metadata σ
  | CallBulkAddOrModify fs changedFiles => bulkAddOrModify fs changedFiles σ
  | CallRemove fs filePath => (remove fs filePath σ).2
  | WriteElement r i x => array_write r i x σ
  end.

Definition run `{path : PathModule} (steps : list step) (σ : Heap) : Heap :=
  fold_left run_step steps σ.

(** The step mutates an index over the file map at [m], or writes to one of
    the records [rs]. *)
Definition step_on (m : loc) (rs : loc → Prop) (s : step) : Prop :=
  match s with
  | CallAddOrModify fs _ _ | CallBulkAddOrModify fs _ | CallRemove fs _ =>
      files fs = m
  | WriteElement r _ _ => rs r
  end.

(** The index is a live object: its file map and the records in it are
    allocated, and, as in every [Map], no key occurs twice. *)
Definition index_wf (this : HasteFS) (σ : Heap) : Prop :=
  is_Some (maps σ !! files this) ∧
  NoDup (JSMap.keys (map_entries σ (files this))) ∧
  Forall (λ r, is_Some (arrays σ !! r)) (records σ (files this)).

(** ** The pattern queries *)

(** JavaScript [Set] of strings: the elements in insertion order. *)
Module JSSet.

Fixpoint has (x : string) (s : list string) : bool :=
  match s with
  | [] => false
  | y :: s' => String.eqb x y || has x s'
  end.

(** [s.add(x)]: an element already there keeps its place. *)
Definition add (x : string) (s : list string) : list string :=
  if has x s then s else s ++ [x].

End JSSet.

(** The regular-expression engine: it compiles a source to the matching
    function of the expression, or throws a [SyntaxError]. *)
Class RegExpEngine := {
  RegExp_compile : string -> completion (nat -> string -> option nat);
}.

(** [new RegExp(source)], with no flags argument: the expression has
    neither the [g] nor the [y] flag. *)
Definition RegExp_new `{RegExpEngine} (source : string) : completion RegExp :=
  match RegExp_compile source with
  | Throw message => Throw message
  | Return matcher =>
      Return {| global_or_sticky := false; lastIndex := 0; exec_at := matcher |}
  end.

(** The argument of [matchFiles]: [RegExp | string]. *)
Inductive Pattern :=
| PatternRegExp (r : RegExp)
| PatternString (source : string).

Definition Glob := string.

(** What the class imports from [jest-util]: [globsToMatcher] compiles the
    globs into one predicate, or throws on a glob it cannot compile. *)
Class JestUtil := {
  globsToMatcher : list Glob -> completion (Path -> bool);
  replacePathSepForGlob : Path -> Path;
}.

Section PatternQueries.
Context `{path : PathModule} `{engine : RegExpEngine} `{jest : JestUtil}.

(** The [for] loop of [matchFiles]; [regexpPattern] is the expression as
    the calls of [test] so far have left it. *)
Fixpoint matchFiles_loop (regexpPattern : RegExp) (iterator : list Path)
    (files : list Path) : list Path * RegExp :=
  match iterator with
  | [] => (files, regexpPattern)
  | file :: rest =>
      let '(matched, regexpPattern') := test regexpPattern file in
      if matched
      then matchFiles_loop regexpPattern' rest (files ++ [file])
      else matchFiles_loop regexpPattern' rest files
  end.

(** The files returned, and the expression as the call leaves it. *)
Definition matchFiles (this : HasteFS) (pattern : Pattern) (σ : Heap)
  : completion (list Path * RegExp) :=
  match (match pattern with
         | PatternRegExp r => Return r
         | PatternString source => RegExp_new source
         end) with
  | Throw message => Throw message
  | Return regexpPattern =>
      Return (matchFiles_loop regexpPattern (getAbsoluteFileIterator this σ) [])
  end.

(** The [for] loop of [matchFilesWithGlob]. *)
Fixpoint matchFilesWithGlob_loop (matcher : Path -> bool) (root : option Path)
    (iterator : list Path) (files : list Path) : list Path :=
  match iterator with
  | [] => files
  | file :: rest =>
      let filePath :=
        match root with
        | Some root => fastPath_relative root file
        | None => file
        end in
      if matcher (replacePathSepForGlob filePath)
      then matchFilesWithGlob_loop matcher root rest (JSSet.add file files)
      else matchFilesWithGlob_loop matcher root rest files
  end.

Definition matchFilesWithGlob (this : HasteFS) (globs : list Glob)
    (root : option Path) (σ : Heap) : completion (list Path) :=
  match globsToMatcher globs with
  | Throw message => Throw message
  | Return matcher =>
      Return (matchFilesWithGlob_loop matcher root
                (getAbsoluteFileIterator this σ) [])
  end.

End PatternQueries.

(** An engine that knows two sources, and a matcher for globs of the form
    [**/*suffix]. *)
Definition example_engine : RegExpEngine :=
  {| RegExp_compile := λ source,
       if String.eqb source "^/proj/src/"
       then Return (λ i s,
                      if Nat.eqb i 0 && JSString.startsWith s "/proj/src/"
                      then Some 10 else None)
       else Throw "Invalid regular expression: /(/: Unterminated group" |}.

Fixpoint endsWith (s suffix : string) : bool :=
  String.eqb s suffix ||
  match s with
  | EmptyString => false
  | String _ s' => endsWith s' suffix
  end.

Definition example_jest : JestUtil :=
  {| globsToMatcher := λ globs,
       Return (λ subject,
                 existsb (λ glob, endsWith subject (JSString.substr glob 4)) globs);
     replacePathSepForGlob := JSString.replace_backslashes |}.

(** The changes of a crawl, as a second map on the example heap: [src/a.js]
    gets the record of the link and [src/new.js] is new. *)
Definition example_heap_with_changes : Heap :=
  {| arrays := arrays example_heap;
     maps := <[2%positive :=
                 [("src/new.js", 2%positive); ("src/a.js", 3%positive)]]>
               (maps example_heap) |}.

(** The example heap with one more map, an empty one. *)
Definition example_heap_with_empty_map : Heap :=
  {| arrays := arrays example_heap;
     maps := <[3%positive := []]> (maps example_heap) |}.

(** The example after [addOrModify('/proj/src/../src/a.js', r)]: the root
    is stripped from the path and what is left, [src/../src/a.js],
    becomes a key as it is, beside [src/a.js]. *)
Definition example_heap_with_dots : Heap :=
  addOrModify (path:=posix) example_fs "/proj/src/../src/a.js" 2%positive
    example_heap.

(** The example after [addOrModify('/proj/src/../src/c.js', r)]: the key is
    [src/../src/c.js], and [src/c.js] is no key. *)
Definition example_heap_with_dots_only : Heap :=
  addOrModify (path:=posix) example_fs "/proj/src/../src/c.js" 1%positive
    example_heap.

(** The example after [addOrModify('/proj//proj/src/a.js', r)]: what is
    left of the path behind the root is [/proj/src/a.js], an absolute
    path, and becomes a key. *)
Definition example_heap_with_absolute_key : Heap :=
  addOrModify (path:=posix) example_fs "/proj//proj/src/a.js" 2%positive
    example_heap.

(** The example with one more file, [broken.js], whose record has no
    mtime. *)
Definition example_heap_without_mtime : Heap :=
  {| arrays :=
       <[4%positive := [VString "broken"; VUndefined; VNumber (Num 3)]]>
         (arrays example_heap);
     maps :=
       <[1%positive :=
           [("src/a.js", 1%positive); ("src/sub/b.js", 2%positive);
            ("link.js", 3%positive); ("broken.js", 4%positive)]]> ∅ |}.

(** On a concrete heap the invariant is checked key by key. *)
Ltac canonical_by_computation :=
  lazymatch goal with
  | |- canonical_keys _ _ => by repeat constructor
  end.

(** * Properties *)

(** ** Facts about maps and the heap *)

Section JSMapFacts.
Context {V : Type}.
Implicit Types (m : list (string * V)) (k : string) (v : V).

Lemma get_set_eq k v m : JSMap.get k (JSMap.set k v m) = Some v.
Proof.
  induction m as [|[k' v'] m IH]; simpl.
  - by rewrite String.eqb_refl.
  - destruct (String.eqb_spec k k') as [->|Hne]; simpl.
    + by rewrite String.eqb_refl.
    + by apply String.eqb_neq in Hne as ->.
Qed.

Lemma get_set_ne k k' v m :
  k ≠ k' → JSMap.get k' (JSMap.set k v m) = JSMap.get k' m.
Proof.
  intros Hne. induction m as [|[k0 v0] m IH]; simpl.
  - destruct (String.eqb_spec k' k); congruence.
  - destruct (String.eqb_spec k k0) as [->|Hk]; simpl.
    + destruct (String.eqb_spec k' k0); congruence.
    + by rewrite IH.
Qed.

Lemma get_delete_eq k m : JSMap.get k (JSMap.delete k m) = None.
Proof.
  induction m as [|[k' v'] m IH]; simpl; [done|].
  destruct (String.eqb_spec k k') as [->|Hne]; simpl; [done|].
  by apply String.eqb_neq in Hne as ->.
Qed.

Lemma get_delete_ne k k' m :
  k ≠ k' → JSMap.get k' (JSMap.delete k m) = JSMap.get k' m.
Proof.
  intros Hne. induction m as [|[k0 v0] m IH]; simpl; [done|].
  destruct (String.eqb_spec k k0) as [->|Hk]; simpl.
  - rewrite IH. destruct (String.eqb_spec k' k0); congruence.
  - by rewrite IH.
Qed.

Lemma get_Some_keys k v m : JSMap.get k m = Some v → k ∈ JSMap.keys m.
Proof.
  induction m as [|[k' v'] m IH]; simpl; [done|].
  destruct (String.eqb_spec k k') as [->|Hne].
  - intros _. apply list_elem_of_here.
  - intros Hg. apply list_elem_of_further, IH, Hg.
Qed.

Lemma get_None_keys k m : JSMap.get k m = None ↔ k ∉ JSMap.keys m.
Proof.
  induction m as [|[k' v'] m IH]; simpl.
  - split; [intros _; apply not_elem_of_nil | done].
  - rewrite not_elem_of_cons, <- IH.
    destruct (String.eqb_spec k k') as [->|Hne]; split.
    + done.
    + by intros [? _].
    + by split.
    + by intros [_ ?].
Qed.

Lemma delete_absent k m : JSMap.get k m = None → JSMap.delete k m = m.
Proof.
  induction m as [|[k' v'] m IH]; simpl; [done|].
  destruct (String.eqb_spec k k'); [done|].
  intros Hg. by rewrite IH.
Qed.

Lemma keys_set_present k v v' m :
  JSMap.get k m = Some v' → JSMap.keys (JSMap.set k v m) = JSMap.keys m.
Proof.
  induction m as [|[k0 v0] m IH]; simpl; [done|].
  destruct (String.eqb_spec k k0) as [->|Hne]; simpl; [done|].
  intros Hg. f_equal. by apply IH.
Qed.

Lemma keys_set_absent k v m :
  JSMap.get k m = None → JSMap.keys (JSMap.set k v m) = JSMap.keys m ++ [k].
Proof.
  induction m as [|[k0 v0] m IH]; simpl; [done|].
  destruct (String.eqb_spec k k0) as [->|Hne]; simpl; [done|].
  intros Hg. f_equal. by apply IH.
Qed.
End JSMapFacts.

Lemma map_entries_update σ m entries :
  map_entries (map_update m entries σ) m = entries.
Proof. unfold map_entries, map_update; simpl. apply lookup_total_insert_eq. Qed.

Lemma map_entries_update_ne σ m m' entries :
  m ≠ m' → map_entries (map_update m entries σ) m' = map_entries σ m'.
Proof.
  intros Hne. unfold map_entries, map_update; simpl.
  by apply lookup_total_insert_ne.
Qed.

Lemma array_get_update σ m entries r i :
  array_get (map_update m entries σ) r i = array_get σ r i.
Proof. done. Qed.

Section Lookup.
Context `{path : PathModule} `{H : Constants}.
Implicit Types (this : HasteFS) (σ : Heap) (P : Path).

(** Under the invariant, looking a path up as given and then normalized
    finds what a single lookup at the normalized key finds. *)
Lemma getFileData_stored this P σ :
  canonical_keys this σ → _getFileData this P σ = stored this σ P.
Proof.
  intros Hcan. unfold _getFileData, stored.
  destruct (JSMap.get P _) as [r|] eqn:Hget; [|done].
  apply get_Some_keys in Hget as Hin.
  unfold canonical_keys in Hcan. rewrite Forall_forall in Hcan.
  by rewrite (Hcan P Hin), Hget.
Qed.

Lemma getFileData_addOrModify this P R σ :
  canonical_keys this σ → _getFileData this P (addOrModify this P R σ) = Some R.
Proof.
  intros Hcan. unfold _getFileData, addOrModify.
  rewrite map_entries_update.
  destruct (decide (_normalizePath this P = P)) as [Heq|Hne].
  - by rewrite Heq, get_set_eq.
  - rewrite get_set_ne by done.
    destruct (JSMap.get P _) as [r|] eqn:Hget.
    + apply get_Some_keys in Hget.
      unfold canonical_keys in Hcan. rewrite Forall_forall in Hcan.
      by destruct Hne; apply Hcan.
    + apply get_set_eq.
Qed.
End Lookup.

(** ** Mutation followed by point queries *)

Section PointQueries.
Context `{path : PathModule} `{H : Constants}.
Implicit Types (this : HasteFS) (σ : Heap) (P : Path).

(** C1.  After [addOrModify(P, R)] on a file map whose keys are all
    canonical, [exists(P)] is [true] and each point query for [P] answers
    from the fields of [R]: the id, size and hash fields (or [null] where
    the field is [undefined] or [null]), the dependency field split at the
    delimiter, and the symlink and mtime fields as link statistics. *)
Theorem addOrModify_point_queries this P (R : loc) σ :
  canonical_keys this σ →
  let σ' := addOrModify this P R σ in
  exists_ this P σ' = true ∧
  getModuleName this P σ' = nullish_coalesce (array_get σ R ID) VNull ∧
  getSize this P σ' = nullish_coalesce (array_get σ R SIZE) VNull ∧
  getSha1 this P σ' = nullish_coalesce (array_get σ R SHA1) VNull ∧
  getDependencies this P σ' =
    (if truthy (array_get σ R DEPENDENCIES)
     then match array_get σ R DEPENDENCIES with
          | VString deps => Return (Some (JSString.split deps DEPENDENCY_DELIM))
          | _ => Throw "fileMetadata[H.DEPENDENCIES].split is not a function"
          end
     else Return (Some [])) ∧
  linkStats this P σ' =
    (if typeof_number (array_get σ R MTIME)
     then Return (Some {| fileType :=
                            if strict_eq_zero (array_get σ R SYMLINK)
                            then "f"%char else "l"%char;
                          modifiedTime := array_get σ R MTIME |})
     else Throw "File in HasteFS missing modified time").
Proof.
  intros Hcan σ'.
  pose proof (getFileData_addOrModify this P R σ Hcan) as Hfound.
  fold σ' in Hfound.
  unfold exists_, getModuleName, getSize, getSha1, getDependencies, linkStats,
    field_or_null.
  rewrite Hfound. subst σ'. unfold addOrModify.
  rewrite !array_get_update.
  repeat split.
  by destruct (typeof_number _).
Qed.

(** C2, as the code has it.  On a file map whose keys are all canonical:
    when [P] is in the map with record [r], the first [remove(P)] returns
    [r] and deletes the entry, leaving every other key as it was; right
    after it [exists(P)] is [false], and each later [remove(P)] returns
    [null].  When [P] is not in the map, [remove(P)] returns [null] and
    changes nothing. *)
Theorem remove_returns_record_once this P σ :
  canonical_keys this σ →
  (∀ r, stored this σ P = Some r →
     let σ1 := (remove this P σ).2 in
     (remove this P σ).1 = Some r ∧
     stored this σ1 P = None ∧
     (∀ k, k ≠ _normalizePath this P →
        JSMap.get k (map_entries σ1 (files this)) =
        JSMap.get k (map_entries σ (files this))) ∧
     arrays σ1 = arrays σ ∧
     exists_ this P σ1 = false ∧
     (∀ n, remove this P (Nat.iter n (λ s, (remove this P s).2) σ1)
           = (None, σ1))) ∧
  (stored this σ P = None → remove this P σ = (None, σ)).
Proof.
  intros Hcan. split.
  - intros r Hst σ1.
    assert (Hrm : remove this P σ =
              (Some r, map_update (files this)
                         (JSMap.delete (_normalizePath this P)
                            (map_entries σ (files this))) σ)).
    { unfold remove. unfold stored in Hst. by rewrite Hst. }
    assert (Hgone : stored this σ1 P = None).
    { subst σ1. rewrite Hrm. unfold stored; simpl.
      rewrite map_entries_update. apply get_delete_eq. }
    assert (Hagain : remove this P σ1 = (None, σ1)).
    { unfold remove. unfold stored in Hgone. by rewrite Hgone. }
    split_and!.
    + by rewrite Hrm.
    + done.
    + intros k Hk. subst σ1. rewrite Hrm; simpl.
      rewrite map_entries_update. by apply get_delete_ne.
    + subst σ1. by rewrite Hrm.
    + unfold exists_, _getFileData. fold (stored this σ1 P). rewrite Hgone.
      destruct (JSMap.get P _) as [r'|] eqn:Hget; [|done].
      exfalso. subst σ1. rewrite Hrm in Hget; simpl in Hget.
      rewrite map_entries_update in Hget.
      destruct (decide (_normalizePath this P = P)) as [Heq|Hne].
      * rewrite Heq, get_delete_eq in Hget. done.
      * rewrite get_delete_ne in Hget by done.
        apply get_Some_keys in Hget.
        unfold canonical_keys in Hcan. rewrite Forall_forall in Hcan.
        by apply Hne, Hcan.
    + intros n. induction n as [|n IH]; simpl; [done|].
      by rewrite IH.
  - intros Hst. unfold remove. unfold stored in Hst. by rewrite Hst.
Qed.
End PointQueries.

Lemma addOrModify_point_queries_witness :
  exists_ (path:=posix) example_fs "/proj/src/new.js"
    (addOrModify (path:=posix) example_fs "/proj/src/new.js" 2%positive example_heap)
  = true.
Proof.
  apply (addOrModify_point_queries (path:=posix) (H:=layout)
           example_fs "/proj/src/new.js" 2%positive example_heap).
  canonical_by_computation.
Defined.

Lemma remove_returns_record_once_witness :
  (remove (path:=posix) example_fs "/proj/src/a.js" example_heap).1
    = Some 1%positive ∧
  exists_ (path:=posix) example_fs "/proj/src/a.js"
    (remove (path:=posix) example_fs "/proj/src/a.js" example_heap).2 = false ∧
  remove (path:=posix) example_fs "/proj/src/a.js"
    (remove (path:=posix) example_fs "/proj/src/a.js" example_heap).2
    = (None, (remove (path:=posix) example_fs "/proj/src/a.js" example_heap).2) ∧
  remove (path:=posix) example_fs "nowhere.js" example_heap = (None, example_heap).
Proof.
  destruct (remove_returns_record_once (path:=posix)
              example_fs "/proj/src/a.js" example_heap) as [Hpresent _].
  { canonical_by_computation. }
  destruct (Hpresent 1%positive eq_refl)
    as (Hfirst & _ & _ & _ & Hexists & Hlater).
  destruct (remove_returns_record_once (path:=posix)
              example_fs "nowhere.js" example_heap) as [_ Habsent].
  { canonical_by_computation. }
  split_and!.
  - exact Hfirst.
  - exact Hexists.
  - exact (Hlater 0).
  - apply Habsent. reflexivity.
Defined.

(** C2, as the spec words it, fails when a key is not canonical: after
    [addOrModify('/proj/src/../src/a.js', r)] the path [src/../src/a.js]
    is in the map, as given and normalized.  [remove] of it returns the
    record stored under the normalized key [src/a.js] and deletes that
    entry, yet [exists] of it is still [true], since the path as given
    is a key of its own. *)
Lemma remove_leaves_unnormalized_key :
  JSMap.get "src/../src/a.js"
    (map_entries example_heap_with_dots (files example_fs)) = Some 2%positive ∧
  stored (path:=posix) example_fs example_heap_with_dots "src/../src/a.js"
    = Some 1%positive ∧
  (remove (path:=posix) example_fs "src/../src/a.js" example_heap_with_dots).1
    = Some 1%positive ∧
  exists_ (path:=posix) example_fs "src/../src/a.js"
    (remove (path:=posix) example_fs "src/../src/a.js" example_heap_with_dots).2
    = true ∧
  exists_ (path:=posix) example_fs "src/../src/a.js"
    (remove (path:=posix) example_fs "src/../src/a.js" example_heap_with_dots).2
    ≠ false.
Proof. split_and!; [reflexivity .. | discriminate]. Qed.

(** ** Absolute and relative spellings of one path *)

Section Normalization.
Context `{H : Constants} (cwd : string).

(** C3, as the code has it.  On a POSIX host, take an index of root
    [/proj] whose file map holds the key [src/a.js] and, as the data model
    requires of every file map (no absolute path is ever a key, no two
    keys denote one file), has no entry under the absolute spelling
    itself.  Then [exists],
    [getModuleName], [getSize], [getSha1], [getDependencies] and
    [linkStats] give the same result for [/proj/src/a.js] as for
    [src/a.js], and both spellings find the file. *)
Theorem normalization_equivalence (m r : loc) σ :
  let path := Posix.path cwd in
  let this := constructor "/proj" m in
  JSMap.get "src/a.js" (map_entries σ m) = Some r →
  JSMap.get "/proj/src/a.js" (map_entries σ m) = None →
  exists_ this "/proj/src/a.js" σ = exists_ this "src/a.js" σ ∧
  getModuleName this "/proj/src/a.js" σ = getModuleName this "src/a.js" σ ∧
  getSize this "/proj/src/a.js" σ = getSize this "src/a.js" σ ∧
  getSha1 this "/proj/src/a.js" σ = getSha1 this "src/a.js" σ ∧
  getDependencies this "/proj/src/a.js" σ = getDependencies this "src/a.js" σ ∧
  linkStats this "/proj/src/a.js" σ = linkStats this "src/a.js" σ ∧
  exists_ this "src/a.js" σ = true.
Proof.
  intros path this Hkey Habsent.
  assert (Hnorm : _normalizePath this "/proj/src/a.js" = "src/a.js")
    by reflexivity.
  assert (Habs : _getFileData this "/proj/src/a.js" σ = Some r).
  { unfold _getFileData. simpl files. by rewrite Habsent, Hnorm. }
  assert (Hrel : _getFileData this "src/a.js" σ = Some r).
  { unfold _getFileData. simpl files. by rewrite Hkey. }
  unfold exists_, getModuleName, getSize, getSha1, getDependencies, linkStats.
  by rewrite Habs, Hrel.
Qed.
End Normalization.

Lemma normalization_equivalence_witness :
  getSize (path:=posix) (H:=layout) example_fs "/proj/src/a.js" example_heap
  = getSize (path:=posix) (H:=layout) example_fs "src/a.js" example_heap.
Proof.
  apply (normalization_equivalence (H:=layout) "/" 1%positive 1%positive
           example_heap).
  - reflexivity.
  - reflexivity.
Defined.

(** C3, as the spec words it, fails when the absolute spelling is itself a
    key: after [addOrModify('/proj//proj/src/a.js', r)] the index of
    [/proj] still holds the key [src/a.js], but [/proj/src/a.js] is a key
    too, with another record, and [getSize] answers 7 for the absolute
    spelling and 12 for the relative one. *)
Lemma spellings_differ_with_absolute_key :
  rootDir example_fs = "/proj" ∧
  JSMap.get "src/a.js"
    (map_entries example_heap_with_absolute_key (files example_fs))
    = Some 1%positive ∧
  JSMap.get "/proj/src/a.js"
    (map_entries example_heap_with_absolute_key (files example_fs))
    = Some 2%positive ∧
  getSize (path:=posix) (H:=layout) example_fs "/proj/src/a.js"
    example_heap_with_absolute_key = VNumber (Num 7) ∧
  getSize (path:=posix) (H:=layout) example_fs "src/a.js"
    example_heap_with_absolute_key = VNumber (Num 12) ∧
  getSize (path:=posix) (H:=layout) example_fs "/proj/src/a.js"
    example_heap_with_absolute_key
  ≠ getSize (path:=posix) (H:=layout) example_fs "src/a.js"
      example_heap_with_absolute_key.
Proof. split_and!; [reflexivity .. | discriminate]. Qed.

(** ** Dependencies *)

Section SplitFacts.
Variable d : ascii.

Lemma split_free_of (s : string) :
  JSString.free_of d s = true → JSString.split s d = [s].
Proof.
  induction s as [|c s IH]; simpl; [done|].
  intros [Hc Hs]%andb_prop.
  apply negb_true_iff in Hc. rewrite Hc, (IH Hs). done.
Qed.

Lemma split_append (a rest : string) :
  JSString.free_of d a = true →
  JSString.split (a +:+ String d rest) d = a :: JSString.split rest d.
Proof.
  induction a as [|c a IH]; simpl.
  - intros _. by rewrite Ascii.eqb_refl.
  - intros [Hc Ha]%andb_prop.
    apply negb_true_iff in Hc. rewrite Hc, (IH Ha). done.
Qed.

(** Splitting what [join] glued gives the parts back, in order. *)
Lemma split_join (parts : list string) :
  parts ≠ [] →
  Forall (λ p, JSString.free_of d p = true) parts →
  JSString.split (JSString.join parts d) d = parts.
Proof.
  induction parts as [|p parts IH]; [done|].
  intros _ Hfree. apply Forall_cons in Hfree as [Hp Hparts].
  destruct parts as [|q parts].
  - simpl. by apply split_free_of.
  - change (JSString.join (p :: q :: parts) d)
      with (p +:+ String d (JSString.join (q :: parts) d)).
    rewrite split_append by done. f_equal. by apply IH.
Qed.
End SplitFacts.

Lemma strict_eq_zero_spec (v : value) :
  strict_eq_zero v = true ↔ v = VNumber (Num 0).
Proof.
  destruct v as [| | |[z|]|]; simpl; try (split; [done|congruence]).
  rewrite Z.eqb_eq. split; [by intros -> | congruence].
Qed.

Section Queries.
Context `{path : PathModule} `{H : Constants}.
Implicit Types (this : HasteFS) (σ : Heap) (P : Path).

(** C4, as the code has it.  [getDependencies(P)] is [null] exactly when
    the lookup finds no record for [P], that is, when [P] is a key of the
    map neither as given nor normalized; on a file map whose keys are all
    canonical this is exactly when the normalized [P] is not a key.  When
    a record is found, the result is the empty array if the dependency
    field is not set ([undefined], [null] or the empty string); otherwise
    it is the stored string split at the delimiter, so that specifiers
    free of the delimiter that were joined with it come back one by one
    in stored order, as [b.js] and [c.js] do. *)
Theorem getDependencies_cases this P σ :
  (getDependencies this P σ = Return None ↔
     JSMap.get P (map_entries σ (files this)) = None ∧ stored this σ P = None) ∧
  (canonical_keys this σ →
     (getDependencies this P σ = Return None ↔ stored this σ P = None)) ∧
  (∀ r, _getFileData this P σ = Some r →
     (array_get σ r DEPENDENCIES = VUndefined ∨
      array_get σ r DEPENDENCIES = VNull ∨
      array_get σ r DEPENDENCIES = VString "" →
      getDependencies this P σ = Return (Some [])) ∧
     (∀ deps, array_get σ r DEPENDENCIES = VString deps → deps ≠ "" →
        getDependencies this P σ =
          Return (Some (JSString.split deps DEPENDENCY_DELIM))) ∧
     (∀ parts,
        array_get σ r DEPENDENCIES =
          VString (JSString.join parts DEPENDENCY_DELIM) →
        JSString.join parts DEPENDENCY_DELIM ≠ "" →
        Forall (λ p, JSString.free_of DEPENDENCY_DELIM p = true) parts →
        getDependencies this P σ = Return (Some parts)) ∧
     (array_get σ r DEPENDENCIES =
        VString ("b.js" +:+ String DEPENDENCY_DELIM "c.js") →
      JSString.free_of DEPENDENCY_DELIM "b.js" = true →
      JSString.free_of DEPENDENCY_DELIM "c.js" = true →
      getDependencies this P σ = Return (Some ["b.js"; "c.js"]))).
Proof.
  assert (Hnull : getDependencies this P σ = Return None ↔
                  _getFileData this P σ = None).
  { unfold getDependencies.
    destruct (_getFileData this P σ) as [r|]; [|done].
    split; [|done].
    destruct (truthy _); [|done]. by destruct (array_get _ _ _). }
  assert (Hsplit : ∀ r deps,
    _getFileData this P σ = Some r →
    array_get σ r DEPENDENCIES = VString deps → deps ≠ "" →
    getDependencies this P σ =
      Return (Some (JSString.split deps DEPENDENCY_DELIM))).
  { intros r deps Hr Hdeps Hne. unfold getDependencies.
    rewrite Hr, Hdeps. simpl. by apply String.eqb_neq in Hne as ->. }
  split_and!.
  - rewrite Hnull. unfold _getFileData, stored.
    destruct (JSMap.get P _) as [r|]; [|by split; [|intros [_ ?]]].
    split; [done|]. by intros [? _].
  - intros Hcan. by rewrite Hnull, getFileData_stored.
  - intros r Hr. split_and!.
    + unfold getDependencies. rewrite Hr. by intros [-> | [-> | ->]].
    + intros deps. by apply Hsplit.
    + intros parts Hdeps Hne Hfree.
      rewrite (Hsplit r _ Hr Hdeps Hne). do 2 f_equal.
      apply split_join; [|done]. by intros ->.
    + intros Hdeps Hb Hc.
      rewrite (Hsplit r _ Hr Hdeps) by done. do 2 f_equal.
      by apply (split_join _ ["b.js"; "c.js"]); repeat constructor.
Qed.

(** C5.  [linkStats(P)] is [null] when the lookup finds no record for
    [P].  When a record is found and its mtime field is a number, the
    result carries that mtime as [modifiedTime] and the file type ['f']
    if the symlink field is the number 0, ['l'] if it is anything else.
    When a record is found and its mtime field is not a number, the call
    throws. *)
Theorem linkStats_cases this P σ :
  (_getFileData this P σ = None → linkStats this P σ = Return None) ∧
  (∀ r, _getFileData this P σ = Some r →
     (∀ t, array_get σ r MTIME = VNumber t →
        ∃ ft, linkStats this P σ =
                Return (Some {| fileType := ft; modifiedTime := VNumber t |}) ∧
              (ft = "l"%char ↔ array_get σ r SYMLINK ≠ VNumber (Num 0)) ∧
              (ft = "f"%char ↔ array_get σ r SYMLINK = VNumber (Num 0))) ∧
     ((∀ t, array_get σ r MTIME ≠ VNumber t) →
        linkStats this P σ = Throw "File in HasteFS missing modified time")).
Proof.
  unfold linkStats. split; [by intros ->|].
  intros r ->. split.
  - intros t ->. simpl.
    pose proof (strict_eq_zero_spec (array_get σ r SYMLINK)) as Hz.
    destruct (strict_eq_zero _).
    + exists "f"%char. split_and!; [done| |].
      * split; [done|]. intros Hne. by destruct Hne; apply Hz.
      * split; [intros _; by apply Hz | done].
    + exists "l"%char. split_and!; [done| |].
      * split; [|done]. intros _ Heq. apply Hz in Heq. done.
      * split; [done|]. intros Heq. apply Hz in Heq. done.
  - intros Hnot. destruct (array_get σ r MTIME) as [| | |t|] eqn:Hm; try done.
    by destruct (Hnot t).
Qed.

(** C9.  [getRealPath] throws for every path, in the map or not, and
    leaves the heap, and with it the file map, as it was. *)
Theorem getRealPath_always_throws this P σ :
  getRealPath this P σ =
    (Throw "HasteFS.getRealPath() is not implemented.", σ) ∧
  (∀ result, (getRealPath this P σ).1 ≠ Return result) ∧
  map_entries (getRealPath this P σ).2 (files this) =
    map_entries σ (files this).
Proof. done. Qed.

(** C10, as the code has it.  Take [P] for which the lookup finds a
    record and [Q] for which it finds none.  If the record's id field is
    absent ([undefined] or [null]) then [getModuleName] is [null] for
    [P] as it is for [Q]; likewise [getSha1] when the sha1 field is
    absent.  [exists] tells the two apart, [true] for [P] and [false]
    for [Q], and so do [getDependencies] and [linkStats], which are
    [null] for [Q] and never for [P]. *)
Theorem null_getters_do_not_distinguish this P Q σ (r : loc) :
  _getFileData this P σ = Some r →
  _getFileData this Q σ = None →
  (array_get σ r ID = VUndefined ∨ array_get σ r ID = VNull →
     getModuleName this P σ = VNull ∧ getModuleName this Q σ = VNull) ∧
  (array_get σ r SHA1 = VUndefined ∨ array_get σ r SHA1 = VNull →
     getSha1 this P σ = VNull ∧ getSha1 this Q σ = VNull) ∧
  (exists_ this P σ = true ∧ exists_ this Q σ = false) ∧
  (getDependencies this P σ ≠ Return None ∧
   getDependencies this Q σ = Return None) ∧
  (linkStats this P σ ≠ Return None ∧
   linkStats this Q σ = Return None).
Proof.
  intros HP HQ.
  unfold getModuleName, getSha1, exists_, getDependencies, linkStats,
    field_or_null.
  rewrite HP, HQ.
  split_and!; try done.
  - by intros [-> | ->].
  - by intros [-> | ->].
  - destruct (truthy _); [|done]. by destruct (array_get σ r DEPENDENCIES).
  - unfold invariant. by destruct (typeof_number _).
Qed.
End Queries.

Lemma getDependencies_cases_witness :
  getDependencies (path:=posix) (H:=layout) example_fs "/proj/src/a.js" example_heap
    = Return (Some ["b.js"; "c.js"]) ∧
  getDependencies (path:=posix) (H:=layout) example_fs "/proj/src/sub/b.js"
    example_heap = Return (Some []) ∧
  getDependencies (path:=posix) (H:=layout) example_fs "nowhere.js" example_heap
    = Return None.
Proof.
  split_and!.
  - apply (getDependencies_cases (path:=posix) (H:=layout)
             example_fs "/proj/src/a.js" example_heap) with (r := 1%positive);
      reflexivity.
  - destruct (getDependencies_cases (path:=posix) (H:=layout)
                example_fs "/proj/src/sub/b.js" example_heap) as (_ & _ & Hfound).
    destruct (Hfound 2%positive eq_refl) as (Hempty & _).
    apply Hempty. left. reflexivity.
  - apply (getDependencies_cases (path:=posix) (H:=layout)
             example_fs "nowhere.js" example_heap).
    + canonical_by_computation.
    + reflexivity.
Defined.

(** C4, as the spec words it, fails: [src/../src/c.js] is not in the map
    after normalization, since [src/c.js] is no key, yet the path as
    given is a key and [getDependencies] answers from its record. *)
Lemma getDependencies_not_null_for_unnormalized_key :
  stored (path:=posix) example_fs example_heap_with_dots_only "src/../src/c.js"
    = None ∧
  getDependencies (path:=posix) (H:=layout) example_fs "src/../src/c.js"
    example_heap_with_dots_only = Return (Some ["b.js"; "c.js"]) ∧
  ¬ (getDependencies (path:=posix) (H:=layout) example_fs "src/../src/c.js"
       example_heap_with_dots_only = Return None ↔
     stored (path:=posix) example_fs example_heap_with_dots_only
       "src/../src/c.js" = None).
Proof.
  split_and!; [reflexivity | reflexivity |].
  intros [_ Hnull]. discriminate Hnull. reflexivity.
Qed.

Lemma linkStats_cases_witness :
  linkStats (path:=posix) (H:=layout) example_fs "nowhere.js"
    example_heap_without_mtime = Return None ∧
  (∃ ft, linkStats (path:=posix) (H:=layout) example_fs "/proj/src/a.js"
           example_heap_without_mtime =
           Return (Some {| fileType := ft;
                           modifiedTime := VNumber (Num 1700000000000) |}) ∧
         (ft = "l"%char ↔
            array_get example_heap_without_mtime 1%positive
              (SYMLINK (Constants:=layout)) ≠ VNumber (Num 0)) ∧
         (ft = "f"%char ↔
            array_get example_heap_without_mtime 1%positive
              (SYMLINK (Constants:=layout)) = VNumber (Num 0))) ∧
  (∃ ft, linkStats (path:=posix) (H:=layout) example_fs "link.js"
           example_heap_without_mtime =
           Return (Some {| fileType := ft;
                           modifiedTime := VNumber (Num 1700000000002) |}) ∧
         (ft = "l"%char ↔
            array_get example_heap_without_mtime 3%positive
              (SYMLINK (Constants:=layout)) ≠ VNumber (Num 0)) ∧
         (ft = "f"%char ↔
            array_get example_heap_without_mtime 3%positive
              (SYMLINK (Constants:=layout)) = VNumber (Num 0))) ∧
  linkStats (path:=posix) (H:=layout) example_fs "/proj/broken.js"
    example_heap_without_mtime = Throw "File in HasteFS missing modified time".
Proof.
  split_and!.
  - apply (linkStats_cases (path:=posix) (H:=layout)
             example_fs "nowhere.js" example_heap_without_mtime).
    reflexivity.
  - apply (linkStats_cases (path:=posix) (H:=layout)
             example_fs "/proj/src/a.js" example_heap_without_mtime)
      with (r := 1%positive); reflexivity.
  - apply (linkStats_cases (path:=posix) (H:=layout)
             example_fs "link.js" example_heap_without_mtime)
      with (r := 3%positive); reflexivity.
  - apply (linkStats_cases (path:=posix) (H:=layout)
             example_fs "/proj/broken.js" example_heap_without_mtime)
      with (r := 4%positive).
    + reflexivity.
    + intros t. discriminate.
Defined.

Lemma null_getters_do_not_distinguish_witness :
  (getModuleName (path:=posix) (H:=layout) example_fs "/proj/src/sub/b.js"
     example_heap = VNull ∧
   getModuleName (path:=posix) (H:=layout) example_fs "nowhere.js" example_heap
     = VNull) ∧
  (getSha1 (path:=posix) (H:=layout) example_fs "/proj/src/sub/b.js"
     example_heap = VNull ∧
   getSha1 (path:=posix) (H:=layout) example_fs "nowhere.js" example_heap
     = VNull) ∧
  getDependencies (path:=posix) (H:=layout) example_fs "/proj/src/sub/b.js"
    example_heap ≠ Return None.
Proof.
  destruct (null_getters_do_not_distinguish (path:=posix) (H:=layout)
              example_fs "/proj/src/sub/b.js" "nowhere.js" example_heap
              2%positive eq_refl eq_refl)
    as (Hid & Hsha1 & _ & [Hdeps _] & _).
  split; [|split].
  - apply Hid. left. reflexivity.
  - apply Hsha1. left. reflexivity.
  - exact Hdeps.
Defined.

(** C10, as the spec words it, fails in its last clause: [exists] is not
    the only query that tells the known file [src/sub/b.js], which has
    neither id nor sha1, from the unknown [nowhere.js]; [getDependencies]
    and [linkStats] do so too. *)
Lemma exists_is_not_the_only_distinction :
  getModuleName (path:=posix) (H:=layout) example_fs "src/sub/b.js" example_heap
  = getModuleName (path:=posix) (H:=layout) example_fs "nowhere.js" example_heap ∧
  getSha1 (path:=posix) (H:=layout) example_fs "src/sub/b.js" example_heap
  = getSha1 (path:=posix) (H:=layout) example_fs "nowhere.js" example_heap ∧
  getDependencies (path:=posix) (H:=layout) example_fs "src/sub/b.js" example_heap
  ≠ getDependencies (path:=posix) (H:=layout) example_fs "nowhere.js" example_heap ∧
  linkStats (path:=posix) (H:=layout) example_fs "src/sub/b.js" example_heap
  ≠ linkStats (path:=posix) (H:=layout) example_fs "nowhere.js" example_heap.
Proof. split_and!; [reflexivity | reflexivity | discriminate | discriminate]. Qed.

(** ** Context queries *)

(** A regular expression without the [g] and [y] flags answers [test] by
    whether the string satisfies it, and is not changed by the call. *)
Lemma test_without_flags (r : RegExp) (s : string) :
  global_or_sticky r = false → test r s = (satisfies s r, r).
Proof. intros Hflags. unfold test, satisfies. by rewrite Hflags. Qed.

Section ContextQuery.
Context `{path : PathModule}.

(** What the loop keeps of each file, for a filter without flags. *)
Lemma matchFilesWithContext_loop_filter root recursive filter iterator files :
  global_or_sticky filter = false →
  matchFilesWithContext_loop root recursive filter iterator files =
  (files ++
   List.filter
     (λ file,
        let filePath := fastPath_relative root file in
        negb (String.eqb filePath "") &&
        negb (JSString.startsWith filePath "..") &&
        (recursive || negb (JSString.includes filePath sep)) &&
        satisfies ("./" +:+ JSString.replace_backslashes filePath) filter)
     iterator,
   filter).
Proof.
  intros Hflags.
  revert files. induction iterator as [|file rest IH]; intros files; simpl.
  - by rewrite app_nil_r.
  - destruct (String.eqb (fastPath_relative root file) ""); simpl; [by apply IH|].
    destruct (JSString.startsWith (fastPath_relative root file) ".."); simpl;
      [by apply IH|].
    rewrite test_without_flags by done.
    destruct recursive; simpl.
    + destruct (satisfies _ _); rewrite IH; [|done].
      by rewrite <- app_assoc.
    + destruct (JSString.includes _ _); simpl; [by apply IH|].
      destruct (satisfies _ _); rewrite IH; [|done].
      by rewrite <- app_assoc.
Qed.

(** C6, as the code has it.  For a filter without the [g] and [y] flags,
    [matchFilesWithContext(root, {recursive, filter})] returns, in
    file-map iteration order, exactly the absolute paths of the files
    whose path relative to the query root is not empty and does not start
    with [..], has no separator in it when [recursive] is false, and whose
    match subject, [./] followed by the relative path with every
    backslash rewritten to a forward slash, satisfies the filter; the
    filter object is left as it was. *)
Theorem matchFilesWithContext_filter this root context σ :
  global_or_sticky (filter_ context) = false →
  matchFilesWithContext this root context σ =
  (List.filter
     (λ file,
        let filePath := fastPath_relative root file in
        negb (String.eqb filePath "") &&
        negb (JSString.startsWith filePath "..") &&
        (recursive context || negb (JSString.includes filePath sep)) &&
        satisfies ("./" +:+ JSString.replace_backslashes filePath)
          (filter_ context))
     (map (fastPath_resolve (rootDir this))
          (JSMap.keys (map_entries σ (files this)))),
   filter_ context).
Proof.
  intros Hflags. unfold matchFilesWithContext.
  by rewrite matchFilesWithContext_loop_filter.
Qed.
End ContextQuery.

Lemma matchFilesWithContext_filter_witness :
  matchFilesWithContext (path:=posix) example_fs "/proj/src"
    {| recursive := false; filter_ := any_subject |} example_heap
  = (["/proj/src/a.js"], any_subject).
Proof.
  rewrite (matchFilesWithContext_filter (path:=posix) example_fs "/proj/src"
             {| recursive := false; filter_ := any_subject |} example_heap).
  - reflexivity.
  - reflexivity.
Defined.

(** C6, as the spec words it, fails: with the query root [/proj/link.js],
    itself a file of the index, the relative path of that file is empty.
    It does not start with [..] and its subject [./] satisfies the
    filter, yet the code discards the file. *)
Lemma matchFilesWithContext_spec_differs :
  (matchFilesWithContext (path:=posix) example_fs "/proj/link.js"
     {| recursive := true; filter_ := any_subject |} example_heap).1 = [] ∧
  matchFilesWithContext_spec (path:=posix) example_fs "/proj/link.js"
    {| recursive := true; filter_ := any_subject |} example_heap
    = ["/proj/link.js"] ∧
  (matchFilesWithContext (path:=posix) example_fs "/proj/link.js"
     {| recursive := true; filter_ := any_subject |} example_heap).1
  ≠ matchFilesWithContext_spec (path:=posix) example_fs "/proj/link.js"
      {| recursive := true; filter_ := any_subject |} example_heap.
Proof. split_and!; [reflexivity | reflexivity | discriminate]. Qed.

(** With the [g] flag the filter remembers where its last match ended:
    after accepting [./src/a.js] it looks at [./src/sub/b.js] from index 2
    on, finds nothing, and starts afresh only at [./link.js]. *)
Example matchFilesWithContext_global_filter :
  matchFilesWithContext (path:=posix) example_fs "/proj"
    {| recursive := true; filter_ := any_subject_global |} example_heap
  = (["/proj/src/a.js"; "/proj/link.js"], set_lastIndex any_subject_global 2).
Proof. reflexivity. Qed.

(** ** The lookup contract *)

Section LookupContract.
Context `{path : PathModule} `{H : Constants}.
Implicit Types (this : HasteFS) (σ : Heap) (P Q : Path).

(** C8, as the code has it.  The lookup behind the six point queries
    answers from the entry at the path exactly as given when there is
    one, and from the entry at the normalized path otherwise; two paths
    with the same lookup result get the same answer from every point
    query.  [remove] does a single lookup, at the normalized path.  On a
    file map whose keys are all canonical the two lookups find the same
    record. *)
Theorem two_tier_lookup_contract this P σ :
  (∀ r, JSMap.get P (map_entries σ (files this)) = Some r →
     _getFileData this P σ = Some r) ∧
  (JSMap.get P (map_entries σ (files this)) = None →
     _getFileData this P σ = stored this σ P) ∧
  (∀ Q, _getFileData this P σ = _getFileData this Q σ →
     exists_ this P σ = exists_ this Q σ ∧
     getModuleName this P σ = getModuleName this Q σ ∧
     getSize this P σ = getSize this Q σ ∧
     getSha1 this P σ = getSha1 this Q σ ∧
     getDependencies this P σ = getDependencies this Q σ ∧
     linkStats this P σ = linkStats this Q σ) ∧
  (remove this P σ).1 = stored this σ P ∧
  (canonical_keys this σ →
     _getFileData this P σ = stored this σ P ∧
     (remove this P σ).1 = _getFileData this P σ).
Proof.
  split_and!.
  - intros r Hget. unfold _getFileData. by rewrite Hget.
  - intros Hget. unfold _getFileData. by rewrite Hget.
  - intros Q Heq.
    unfold exists_, getModuleName, getSize, getSha1, getDependencies, linkStats.
    by rewrite Heq.
  - unfold remove, stored. by destruct (JSMap.get _ _).
  - intros Hcan. rewrite getFileData_stored by done. split; [done|].
    unfold remove, stored. by destruct (JSMap.get _ _).
Qed.
End LookupContract.

Lemma two_tier_lookup_contract_witness :
  _getFileData (path:=posix) example_fs "/proj/src/a.js" example_heap
  = stored (path:=posix) example_fs example_heap "/proj/src/a.js".
Proof.
  apply (two_tier_lookup_contract (path:=posix) (H:=layout)
           example_fs "/proj/src/a.js" example_heap).
  canonical_by_computation.
Defined.

(** C8, as the spec words it, fails for [remove]: the path exactly as given
    is a key, a direct lookup finds its record and so do the point
    queries, yet [remove] normalizes first, misses, and returns [null]
    where a two-tier [remove] would delete the entry. *)
Lemma remove_is_not_two_tier :
  JSMap.get "/proj/a.js" (map_entries absolute_key_heap (files example_fs))
    = Some 1%positive ∧
  _getFileData (path:=posix) example_fs "/proj/a.js" absolute_key_heap
    = Some 1%positive ∧
  remove (path:=posix) example_fs "/proj/a.js" absolute_key_heap
    = (None, absolute_key_heap) ∧
  (remove_two_tier (path:=posix) example_fs "/proj/a.js" absolute_key_heap).1
    = Some 1%positive ∧
  (remove (path:=posix) example_fs "/proj/a.js" absolute_key_heap).1
  ≠ (remove_two_tier (path:=posix) example_fs "/proj/a.js" absolute_key_heap).1.
Proof. split_and!; [reflexivity .. | discriminate]. Qed.

(** ** Snapshots *)

Section JSMapOfEntries.
Context {V : Type}.
Implicit Types (m es : list (string * V)).

Lemma set_absent k (v : V) m :
  k ∉ JSMap.keys m → JSMap.set k v m = m ++ [(k, v)].
Proof.
  induction m as [|[k0 v0] m IH]; simpl; [done|].
  rewrite not_elem_of_cons. intros [Hne Hnin].
  apply String.eqb_neq in Hne as ->. by rewrite IH.
Qed.

Lemma fold_set_nodup es m :
  NoDup (JSMap.keys (m ++ es)) →
  fold_left (λ m e, JSMap.set e.1 e.2 m) es m = m ++ es.
Proof.
  revert m. induction es as [|[k v] es IH]; intros m Hnd; simpl.
  - by rewrite app_nil_r.
  - assert (Hk : k ∉ JSMap.keys m).
    { unfold JSMap.keys in *. rewrite map_app in Hnd.
      apply NoDup_app in Hnd as (_ & Hdisj & _).
      intros Hin. apply (Hdisj k Hin). simpl. apply list_elem_of_here. }
    rewrite set_absent by done.
    rewrite IH; rewrite <- app_assoc; done.
Qed.

(** [new Map(entries)] keeps entries with distinct keys as they come. *)
Lemma of_entries_nodup es :
  NoDup (JSMap.keys es) → JSMap.of_entries es = es.
Proof. intros Hnd. unfold JSMap.of_entries. by rewrite fold_set_nodup. Qed.

Lemma get_fmap {W} (f : V → W) k m :
  JSMap.get k (map (λ e, (e.1, f e.2)) m) = f <$> JSMap.get k m.
Proof.
  induction m as [|[k0 v0] m IH]; simpl; [done|].
  by destruct (String.eqb k k0).
Qed.
End JSMapOfEntries.

Lemma Forall2_impl_Forall_l {A B} (P : A → Prop) (Q R : A → B → Prop) l k :
  Forall P l → Forall2 Q l k → (∀ x y, P x → Q x y → R x y) → Forall2 R l k.
Proof.
  intros HP HQ Himp. revert HP.
  induction HQ as [|x y l k Hxy HQ IH]; intros HP; [constructor|].
  apply Forall_cons in HP as [Hx HP]. constructor; auto.
Qed.

Section SnapshotFacts.
Context `{path : PathModule} `{H : Constants}.
Implicit Types (this that : HasteFS) (σ : Heap) (P : Path).

(** Copying the entries allocates one new array per entry, with the
    elements of the record it copies, and touches nothing else. *)
Lemma copy_entries_spec entries σ pairs σ1 :
  Forall (λ e, is_Some (arrays σ !! e.2)) entries →
  copy_entries entries σ = (pairs, σ1) →
  maps σ1 = maps σ ∧
  arrays σ ⊆ arrays σ1 ∧
  Forall2 (λ e e', e'.1 = e.1 ∧ arrays σ1 !! e'.2 = Some (arrays σ !!! e.2))
    entries pairs ∧
  Forall (λ e', arrays σ !! e'.2 = None) pairs ∧
  NoDup (map snd pairs).
Proof.
  revert σ pairs σ1.
  induction entries as [|[k v] entries IH]; intros σ pairs σ1 Hall Hcopy.
  - simpl in Hcopy. injection Hcopy as <- <-.
    split_and!; try done; constructor.
  - simpl in Hcopy.
    destruct (copy_entries entries _) as [rest' σ2] eqn:Hrest.
    injection Hcopy as <- <-.
    apply Forall_cons in Hall as [Hv Hall].
    set (r' := fresh (dom (arrays σ))) in *.
    assert (Hfresh : arrays σ !! r' = None).
    { apply not_elem_of_dom, is_fresh. }
    set (σa := {| arrays := <[r' := arrays σ !!! v]> (arrays σ);
                  maps := maps σ |}) in *.
    assert (Hsub : arrays σ ⊆ arrays σa) by by apply insert_subseteq.
    apply IH in Hrest as (Hmaps & Hsub2 & Hcopied & Hnew & Hnd).
    2: { eapply Forall_impl; [exact Hall|].
         intros e [x Hx]. exists x. by eapply lookup_weaken. }
    split_and!.
    + done.
    + by etrans.
    + constructor.
      * split; [done|]. simpl.
        eapply lookup_weaken; [|exact Hsub2]. apply lookup_insert_eq.
      * eapply Forall2_impl_Forall_l; [exact Hall|exact Hcopied|].
        intros e e' [x Hx] [? He']. split; [done|]. rewrite He'. f_equal.
        simpl. apply lookup_total_insert_ne.
        intros Heq. rewrite Heq in Hfresh. congruence.
    + constructor; [done|].
      eapply Forall_impl; [exact Hnew|]. intros e' He'.
      destruct (arrays σ !! e'.2) eqn:Hold; [|done].
      eapply lookup_weaken in Hold; [|exact Hsub].
      rewrite He' in Hold. done.
    + simpl. constructor; [|done].
      intros Hin. apply list_elem_of_fmap in Hin as (e' & -> & Hin).
      rewrite Forall_forall in Hnew. specialize (Hnew _ Hin). simpl in Hnew.
      by rewrite lookup_insert_eq in Hnew.
Qed.

Lemma map_entries_lookup σ1 σ2 m :
  maps σ2 !! m = maps σ1 !! m → map_entries σ2 m = map_entries σ1 m.
Proof.
  intros Heq. unfold map_entries. by rewrite !lookup_total_alt, Heq.
Qed.

(** The contents of a file map depend on its entries and on the records
    they refer to, and on nothing else in the heap. *)
Lemma contents_frame σ1 σ2 m :
  maps σ2 !! m = maps σ1 !! m →
  (∀ r, r ∈ records σ1 m → arrays σ2 !! r = arrays σ1 !! r) →
  contents σ2 m = contents σ1 m.
Proof.
  intros Hm Hr. unfold contents, records in *.
  rewrite (map_entries_lookup _ _ _ Hm).
  apply map_ext_in. intros [k r] Hin%list_elem_of_In. simpl. f_equal.
  rewrite !lookup_total_alt. f_equal. apply Hr.
  apply list_elem_of_fmap. by exists (k, r).
Qed.

Lemma bulk_fold_frame m entries σ :
  let σ' := fold_left
              (λ σ' e, map_update m (JSMap.set e.1 e.2 (map_entries σ' m)) σ')
              entries σ in
  arrays σ' = arrays σ ∧ ∀ m0, m0 ≠ m → maps σ' !! m0 = maps σ !! m0.
Proof.
  revert σ. induction entries as [|e entries IH]; intros σ; simpl; [done|].
  destruct (IH (map_update m (JSMap.set e.1 e.2 (map_entries σ m)) σ))
    as [Harr Hmaps].
  split; [by rewrite Harr|].
  intros m0 Hne. rewrite Hmaps by done. simpl. by apply lookup_insert_ne.
Qed.

(** A step on the file map at [m] and the records [rs] leaves the other
    maps and the other records alone. *)
Lemma run_step_frame m (rs : loc → Prop) s σ :
  step_on m rs s →
  (∀ m0, m0 ≠ m → maps (run_step σ s) !! m0 = maps σ !! m0) ∧
  (∀ r, ¬ rs r → arrays (run_step σ s) !! r = arrays σ !! r).
Proof.
  destruct s as [fs p md|fs changed|fs p|r0 i x]; simpl.
  - intros <-. split; [|done].
    intros m0 Hne. by apply lookup_insert_ne.
  - intros <-. unfold bulkAddOrModify.
    destruct (bulk_fold_frame (files fs) (map_entries σ changed) σ)
      as [Harr Hmaps].
    split; [done|]. intros r _. by rewrite Harr.
  - intros <-. unfold remove. destruct (JSMap.get _ _); simpl; [|done].
    split; [|done]. intros m0 Hne. by apply lookup_insert_ne.
  - intros Hrs. split; [done|].
    intros r Hr. apply lookup_insert_ne. by intros ->.
Qed.

Lemma run_frame m (rs : loc → Prop) steps σ :
  Forall (step_on m rs) steps →
  (∀ m0, m0 ≠ m → maps (run steps σ) !! m0 = maps σ !! m0) ∧
  (∀ r, ¬ rs r → arrays (run steps σ) !! r = arrays σ !! r).
Proof.
  revert σ. induction steps as [|s steps IH]; intros σ Hall; [done|].
  apply Forall_cons in Hall as [Hs Hall].
  destruct (run_step_frame m rs s σ Hs) as [Hm1 Ha1].
  destruct (IH (run_step σ s) Hall) as [Hm2 Ha2].
  unfold run in *. simpl. split.
  - intros m0 Hne. by rewrite Hm2, Hm1.
  - intros r Hr. by rewrite Ha2, Ha1.
Qed.

Lemma run_contents m (rs : loc → Prop) steps σ m0 :
  Forall (step_on m rs) steps →
  m0 ≠ m →
  (∀ r, r ∈ records σ m0 → ¬ rs r) →
  contents (run steps σ) m0 = contents σ m0.
Proof.
  intros Hall Hne Hrs.
  destruct (run_frame m rs steps σ Hall) as [Hm Ha].
  apply contents_frame; [by apply Hm|].
  intros r Hr. by apply Ha, Hrs.
Qed.

(** Two indexes with one root directory and file maps of equal contents
    answer every point query alike. *)
Lemma point_queries_contents this that σ1 σ2 P :
  rootDir that = rootDir this →
  contents σ2 (files that) = contents σ1 (files this) →
  exists_ that P σ2 = exists_ this P σ1 ∧
  getModuleName that P σ2 = getModuleName this P σ1 ∧
  getSize that P σ2 = getSize this P σ1 ∧
  getSha1 that P σ2 = getSha1 this P σ1 ∧
  getDependencies that P σ2 = getDependencies this P σ1 ∧
  linkStats that P σ2 = linkStats this P σ1.
Proof.
  intros Hroot Hcont.
  assert (Hget : ∀ k,
    (λ r, arrays σ2 !!! r) <$> JSMap.get k (map_entries σ2 (files that)) =
    (λ r, arrays σ1 !!! r) <$> JSMap.get k (map_entries σ1 (files this))).
  { intros k.
    rewrite <- (get_fmap (λ r, arrays σ2 !!! r)),
            <- (get_fmap (λ r, arrays σ1 !!! r)).
    change (JSMap.get k (contents σ2 (files that)) =
            JSMap.get k (contents σ1 (files this))).
    by rewrite Hcont. }
  assert (Hnorm : _normalizePath that P = _normalizePath this P).
  { unfold _normalizePath. by rewrite Hroot. }
  assert (Hdata :
    (λ r, arrays σ2 !!! r) <$> _getFileData that P σ2 =
    (λ r, arrays σ1 !!! r) <$> _getFileData this P σ1).
  { unfold _getFileData. rewrite Hnorm.
    pose proof (Hget P) as HP.
    pose proof (Hget (_normalizePath this P)) as HN.
    destruct (JSMap.get P (map_entries σ2 _)),
             (JSMap.get P (map_entries σ1 _)); try done. }
  unfold exists_, getModuleName, getSize, getSha1, getDependencies, linkStats,
    field_or_null, array_get.
  destruct (_getFileData that P σ2) as [r2|], (_getFileData this P σ1) as [r1|];
    try done.
  simpl in Hdata. injection Hdata as ->. done.
Qed.
End SnapshotFacts.

Lemma copied_keys (σ σ1 : Heap) (entries pairs : FileData) :
  Forall2 (λ e e', e'.1 = e.1 ∧ arrays σ1 !! e'.2 = Some (arrays σ !!! e.2))
    entries pairs →
  JSMap.keys pairs = JSMap.keys entries.
Proof.
  unfold JSMap.keys.
  induction 1 as [|e e' l k [He _] _ IH]; simpl; [done|].
  f_equal; [exact He | exact IH].
Qed.

Lemma copied_contents (σ σ1 : Heap) (entries pairs : FileData) :
  Forall2 (λ e e', e'.1 = e.1 ∧ arrays σ1 !! e'.2 = Some (arrays σ !!! e.2))
    entries pairs →
  map (λ e, (e.1, arrays σ1 !!! e.2)) pairs =
  map (λ e, (e.1, arrays σ !!! e.2)) entries.
Proof.
  induction 1 as [|e e' l k [He Harr] _ IH]; simpl; [done|].
  f_equal; [|exact IH]. f_equal; [exact He|].
  by rewrite lookup_total_alt, Harr.
Qed.

Section Snapshot.
Context `{path : PathModule} `{H : Constants}.
Implicit Types (this : HasteFS) (σ : Heap) (P : Path).

(** C7.  For a live index, [getSerializableSnapshot()] returns a new map
    with the keys of the file map in the same order, each with a newly
    allocated array that holds the elements of the original record, and
    leaves the file map and its records as they were.  Whatever is then
    done to the original (calls of its mutators with any arguments,
    writes to records that existed before the call) leaves the contents
    of the snapshot unchanged, and whatever is done to the snapshot
    (mutators of an index built on it, writes to its arrays) leaves the
    contents of the original unchanged.  An index built from the
    snapshot with the same root directory answers every point query as
    the original does. *)
Theorem getSerializableSnapshot_independent this σ :
  index_wf this σ →
  let snap := (getSerializableSnapshot this σ).1 in
  let σ' := (getSerializableSnapshot this σ).2 in
  let that := constructor (rootDir this) snap in
  (maps σ !! snap = None ∧
   JSMap.keys (map_entries σ' snap) = JSMap.keys (map_entries σ (files this)) ∧
   contents σ' snap = contents σ (files this) ∧
   Forall (λ r, arrays σ !! r = None) (records σ' snap) ∧
   NoDup (records σ' snap)) ∧
  (map_entries σ' (files this) = map_entries σ (files this) ∧
   contents σ' (files this) = contents σ (files this)) ∧
  (∀ steps,
     Forall (step_on (files this) (λ r, is_Some (arrays σ !! r))) steps →
     contents (run steps σ') snap = contents σ' snap) ∧
  (∀ steps,
     Forall (step_on snap (λ r, r ∈ records σ' snap)) steps →
     contents (run steps σ') (files this) = contents σ' (files this)) ∧
  (∀ P,
     exists_ that P σ' = exists_ this P σ' ∧
     getModuleName that P σ' = getModuleName this P σ' ∧
     getSize that P σ' = getSize this P σ' ∧
     getSha1 that P σ' = getSha1 this P σ' ∧
     getDependencies that P σ' = getDependencies this P σ' ∧
     linkStats that P σ' = linkStats this P σ').
Proof.
  intros (Hmap & Hnodup & Hrecs) snap σ' that.
  unfold getSerializableSnapshot in snap, σ'.
  destruct (copy_entries (map_entries σ (files this)) σ) as [pairs σ1] eqn:Hcopy.
  apply copy_entries_spec in Hcopy as (Hmaps & Hsub & Hcopied & Hnew & Hnd).
  2: { unfold records in Hrecs. by rewrite Forall_fmap in Hrecs. }
  simpl in snap, σ'.
  assert (Hkeys : JSMap.keys pairs = JSMap.keys (map_entries σ (files this))).
  { by eapply copied_keys. }
  assert (Hof : JSMap.of_entries pairs = pairs).
  { apply of_entries_nodup. by rewrite Hkeys. }
  assert (Hsnap_fresh : maps σ !! snap = None).
  { subst snap. rewrite Hmaps. apply not_elem_of_dom, is_fresh. }
  assert (Hne : snap ≠ files this).
  { intros Heq. rewrite Heq in Hsnap_fresh.
    destruct Hmap as [x Hx]. congruence. }
  assert (Hsnap_entries : map_entries σ' snap = pairs).
  { subst σ'. unfold map_entries. simpl.
    fold snap. by rewrite lookup_total_insert_eq. }
  assert (Harr : arrays σ' = arrays σ1) by done.
  assert (Hold_entries :
    map_entries σ' (files this) = map_entries σ (files this)).
  { apply map_entries_lookup. subst σ'. simpl. fold snap.
    rewrite lookup_insert_ne by done. by rewrite Hmaps. }
  assert (Hsnap_contents : contents σ' snap = contents σ (files this)).
  { unfold contents. rewrite Hsnap_entries, Harr.
    by apply copied_contents. }
  assert (Hold_contents : contents σ' (files this) = contents σ (files this)).
  { apply contents_frame.
    - subst σ'. simpl. fold snap.
      rewrite lookup_insert_ne by done. by rewrite Hmaps.
    - intros r Hr. rewrite Forall_forall in Hrecs.
      destruct (Hrecs r Hr) as [x Hx]. rewrite Harr, Hx.
      by eapply lookup_weaken. }
  assert (Hsnap_records : Forall (λ r, arrays σ !! r = None) (records σ' snap)).
  { unfold records. rewrite Hsnap_entries. by rewrite Forall_fmap. }
  split_and!.
  - done.
  - by rewrite Hsnap_entries.
  - done.
  - done.
  - unfold records. by rewrite Hsnap_entries.
  - done.
  - done.
  - intros steps Hsteps.
    eapply run_contents; [exact Hsteps|done|].
    intros r Hr [x Hx]. rewrite Forall_forall in Hsnap_records.
    rewrite (Hsnap_records r Hr) in Hx. done.
  - intros steps Hsteps.
    eapply run_contents; [exact Hsteps|done|].
    intros r Hr Hin. unfold records in Hr. rewrite Hold_entries in Hr.
    rewrite Forall_forall in Hrecs, Hsnap_records.
    destruct (Hrecs r Hr) as [x Hx].
    rewrite (Hsnap_records r Hin) in Hx. done.
  - intros P. apply point_queries_contents; [done|].
    simpl. by rewrite Hsnap_contents, Hold_contents.
Qed.
End Snapshot.

Lemma getSerializableSnapshot_independent_witness :
  contents (getSerializableSnapshot example_fs example_heap).2
           (getSerializableSnapshot example_fs example_heap).1
  = contents example_heap (files example_fs).
Proof.
  apply (getSerializableSnapshot_independent (path:=posix) (H:=layout)
           example_fs example_heap).
  split_and!.
  - by eexists.
  - apply (bool_decide_unpack _). by vm_compute.
  - repeat constructor; by eexists.
Defined.

(** * Further properties of the class *)

(** ** More facts about maps *)

Section JSMapMoreFacts.
Context {V : Type}.
Implicit Types (m es : list (string * V)) (k : string) (v : V).

Lemma set_set k v1 v2 m :
  JSMap.set k v2 (JSMap.set k v1 m) = JSMap.set k v2 m.
Proof.
  induction m as [|[k0 v0] m IH]; simpl.
  - by rewrite String.eqb_refl.
  - destruct (String.eqb_spec k k0) as [->|Hne]; simpl.
    + by rewrite String.eqb_refl.
    + apply String.eqb_neq in Hne as ->. by rewrite IH.
Qed.

Lemma delete_set_absent k v m :
  JSMap.get k m = None → JSMap.delete k (JSMap.set k v m) = m.
Proof.
  induction m as [|[k0 v0] m IH]; simpl.
  - intros _. by rewrite String.eqb_refl.
  - destruct (String.eqb_spec k k0) as [->|Hne]; simpl; [done|].
    intros Hget. apply String.eqb_neq in Hne as ->. by rewrite IH.
Qed.

Lemma keys_delete_subset k k' m :
  k' ∈ JSMap.keys (JSMap.delete k m) → k' ∈ JSMap.keys m ∧ k' ≠ k.
Proof.
  induction m as [|[k0 v0] m IH]; simpl.
  - by intros ?%elem_of_nil.
  - destruct (String.eqb_spec k k0) as [->|Hne]; simpl.
    + intros [Hin Hk]%IH. split; [by apply list_elem_of_further | done].
    + intros [->|Hin]%elem_of_cons.
      * split; [apply list_elem_of_here | done].
      * apply IH in Hin as [Hin Hk].
        split; [by apply list_elem_of_further | done].
Qed.

Lemma keys_set_subset k k' v m :
  k' ∈ JSMap.keys (JSMap.set k v m) → k' = k ∨ k' ∈ JSMap.keys m.
Proof.
  induction m as [|[k0 v0] m IH]; simpl.
  - intros ->%list_elem_of_singleton. by left.
  - destruct (String.eqb_spec k k0) as [->|Hne]; simpl.
    + intros [->|Hin]%elem_of_cons; [by left|].
      right. by apply list_elem_of_further.
    + intros [->|Hin]%elem_of_cons.
      * right. apply list_elem_of_here.
      * apply IH in Hin as [->|Hin]; [by left|].
        right. by apply list_elem_of_further.
Qed.

(** Setting the entries of a map with distinct keys one after the other:
    a key of [es] ends with its value there, another key keeps its own. *)
Lemma get_fold_set es m k :
  NoDup (JSMap.keys es) →
  JSMap.get k (fold_left (λ m e, JSMap.set e.1 e.2 m) es m) =
  match JSMap.get k es with
  | Some v => Some v
  | None => JSMap.get k m
  end.
Proof.
  revert m. induction es as [|[k0 v0] es IH]; intros m Hnd; simpl; [done|].
  apply NoDup_cons in Hnd as [Hk0 Hnd].
  rewrite IH by done. simpl.
  destruct (String.eqb_spec k k0) as [->|Hne].
  - apply get_None_keys in Hk0. simpl in Hk0. rewrite Hk0. apply get_set_eq.
  - destruct (JSMap.get k es); [done|].
    apply get_set_ne. congruence.
Qed.

(** The same, for the order of the keys: the keys already there keep their
    places, and the new ones follow in the order of [es]. *)
Lemma keys_fold_set es m :
  NoDup (JSMap.keys es) →
  JSMap.keys (fold_left (λ m e, JSMap.set e.1 e.2 m) es m) =
  JSMap.keys m ++
  List.filter (λ k, negb (bool_decide (k ∈ JSMap.keys m))) (JSMap.keys es).
Proof.
  revert m. induction es as [|[k0 v0] es IH]; intros m Hnd; simpl.
  - by rewrite app_nil_r.
  - apply NoDup_cons in Hnd as [Hk0 Hnd].
    rewrite IH by done.
    destruct (JSMap.get k0 m) as [v|] eqn:Hget.
    + rewrite (keys_set_present _ _ _ _ Hget).
      apply get_Some_keys in Hget.
      by rewrite (bool_decide_eq_true_2 _ Hget).
    + rewrite (keys_set_absent _ _ _ Hget).
      apply get_None_keys in Hget.
      rewrite (bool_decide_eq_false_2 _ Hget). simpl.
      rewrite <- app_assoc. simpl. do 2 f_equal.
      apply filter_ext_in. intros k Hin. f_equal.
      apply bool_decide_ext. rewrite elem_of_app, list_elem_of_singleton.
      split; [|by left]. intros [Hm| ->]; [done|].
      apply list_elem_of_In in Hin. done.
Qed.
End JSMapMoreFacts.

Lemma keys_fold_set_subset {V} (es m : list (string * V)) k :
  k ∈ JSMap.keys (fold_left (λ m e, JSMap.set e.1 e.2 m) es m) →
  k ∈ JSMap.keys m ∨ k ∈ JSMap.keys es.
Proof.
  revert m. induction es as [|[k0 v0] es IH]; intros m; simpl; [by left|].
  intros [Hin|Hin]%IH.
  - apply keys_set_subset in Hin as [->|Hin]; [|by left].
    right. apply list_elem_of_here.
  - right. by apply list_elem_of_further.
Qed.

(** ** Mutators *)

Section Mutators.
Context `{path : PathModule} `{H : Constants}.
Implicit Types (this : HasteFS) (σ : Heap) (P Q : Path).

Lemma map_entries_bulk_fold m entries σ :
  map_entries
    (fold_left
       (λ σ' e, map_update m (JSMap.set e.1 e.2 (map_entries σ' m)) σ')
       entries σ) m =
  fold_left (λ acc e, JSMap.set e.1 e.2 acc) entries (map_entries σ m).
Proof.
  revert σ. induction entries as [|e entries IH]; intros σ; simpl; [done|].
  by rewrite IH, map_entries_update.
Qed.

Lemma map_entries_bulkAddOrModify this changedFiles σ :
  map_entries (bulkAddOrModify this changedFiles σ) (files this) =
  fold_left (λ acc e, JSMap.set e.1 e.2 acc) (map_entries σ changedFiles)
    (map_entries σ (files this)).
Proof. apply map_entries_bulk_fold. Qed.

(** Point queries read the record the lookup finds and nothing else. *)
Lemma point_queries_same_data this Q σ1 σ2 :
  _getFileData this Q σ2 = _getFileData this Q σ1 →
  arrays σ2 = arrays σ1 →
  exists_ this Q σ2 = exists_ this Q σ1 ∧
  getModuleName this Q σ2 = getModuleName this Q σ1 ∧
  getSize this Q σ2 = getSize this Q σ1 ∧
  getSha1 this Q σ2 = getSha1 this Q σ1 ∧
  getDependencies this Q σ2 = getDependencies this Q σ1 ∧
  linkStats this Q σ2 = linkStats this Q σ1.
Proof.
  intros Hdata Harr.
  unfold exists_, getModuleName, getSize, getSha1, getDependencies, linkStats,
    field_or_null, array_get.
  by rewrite Hdata, Harr.
Qed.

(** X1.  [bulkAddOrModify] stores every key of [changedFiles] exactly as
    given, without normalizing it: afterwards a lookup of such a key as
    given finds the record [changedFiles] has for it, so [exists] is
    [true]; every key that is not in [changedFiles] keeps the record it
    had, and no record is written to.  (As in every [Map], no key occurs
    twice in [changedFiles].) *)
Theorem bulkAddOrModify_lookup this changedFiles σ :
  NoDup (JSMap.keys (map_entries σ changedFiles)) →
  let σ' := bulkAddOrModify this changedFiles σ in
  (∀ k r, JSMap.get k (map_entries σ changedFiles) = Some r →
     JSMap.get k (map_entries σ' (files this)) = Some r ∧
     _getFileData this k σ' = Some r ∧
     exists_ this k σ' = true) ∧
  (∀ k, JSMap.get k (map_entries σ changedFiles) = None →
     JSMap.get k (map_entries σ' (files this)) =
     JSMap.get k (map_entries σ (files this))) ∧
  arrays σ' = arrays σ.
Proof.
  intros Hnd σ'.
  assert (Hget : ∀ k,
    JSMap.get k (map_entries σ' (files this)) =
    match JSMap.get k (map_entries σ changedFiles) with
    | Some v => Some v
    | None => JSMap.get k (map_entries σ (files this))
    end).
  { intros k. subst σ'. rewrite map_entries_bulkAddOrModify.
    by apply get_fold_set. }
  split_and!.
  - intros k r Hk. specialize (Hget k). rewrite Hk in Hget.
    unfold exists_, _getFileData. by rewrite Hget.
  - intros k Hk. specialize (Hget k). by rewrite Hk in Hget.
  - apply (bulk_fold_frame (files this) (map_entries σ changedFiles) σ).
Qed.

(** X2.  Iteration order after [bulkAddOrModify]: the keys the file map
    already had keep their places, and the keys of [changedFiles] that are
    new follow them in the order of [changedFiles]. *)
Theorem bulkAddOrModify_iteration_order this changedFiles σ :
  NoDup (JSMap.keys (map_entries σ changedFiles)) →
  getFileIterator this (bulkAddOrModify this changedFiles σ) =
  getFileIterator this σ ++
  List.filter (λ k, negb (bool_decide (k ∈ getFileIterator this σ)))
    (JSMap.keys (map_entries σ changedFiles)).
Proof.
  intros Hnd. unfold getFileIterator.
  rewrite map_entries_bulkAddOrModify. by apply keys_fold_set.
Qed.

(** X3.  [addOrModify(P, R)] concerns one key only: for a path [Q] that is
    not the key written, neither as given nor normalized, every point
    query answers after the call as it did before. *)
Theorem addOrModify_other_paths this P (R : loc) Q σ :
  Q ≠ _normalizePath this P →
  _normalizePath this Q ≠ _normalizePath this P →
  let σ' := addOrModify this P R σ in
  exists_ this Q σ' = exists_ this Q σ ∧
  getModuleName this Q σ' = getModuleName this Q σ ∧
  getSize this Q σ' = getSize this Q σ ∧
  getSha1 this Q σ' = getSha1 this Q σ ∧
  getDependencies this Q σ' = getDependencies this Q σ ∧
  linkStats this Q σ' = linkStats this Q σ.
Proof.
  intros HQ HnQ σ'. apply point_queries_same_data; [|done].
  subst σ'. unfold _getFileData, addOrModify.
  rewrite map_entries_update. by rewrite !get_set_ne.
Qed.

(** X4.  [remove(P)] concerns one key only: for a path [Q] that is not the
    key removed, neither as given nor normalized, every point query
    answers after the call as it did before. *)
Theorem remove_other_paths this P Q σ :
  Q ≠ _normalizePath this P →
  _normalizePath this Q ≠ _normalizePath this P →
  let σ' := (remove this P σ).2 in
  exists_ this Q σ' = exists_ this Q σ ∧
  getModuleName this Q σ' = getModuleName this Q σ ∧
  getSize this Q σ' = getSize this Q σ ∧
  getSha1 this Q σ' = getSha1 this Q σ ∧
  getDependencies this Q σ' = getDependencies this Q σ ∧
  linkStats this Q σ' = linkStats this Q σ.
Proof.
  intros HQ HnQ σ'. subst σ'. unfold remove.
  destruct (JSMap.get (_normalizePath this P) _) as [r|]; simpl; [|done].
  apply point_queries_same_data; [|done].
  unfold _getFileData. rewrite map_entries_update.
  by rewrite !get_delete_ne.
Qed.

(** X5.  Iteration order after [addOrModify(P, R)]: when the normalized
    path is already a key, the keys and [getAllFiles()] are as before (the
    record is replaced in place); when it is new, it is appended last, and
    [getAllFiles()] gains its absolute path at the end. *)
Theorem addOrModify_iteration_order this P (R : loc) σ :
  let σ' := addOrModify this P R σ in
  (is_Some (stored this σ P) →
     getFileIterator this σ' = getFileIterator this σ ∧
     getAllFiles this σ' = getAllFiles this σ) ∧
  (stored this σ P = None →
     getFileIterator this σ' = getFileIterator this σ ++ [_normalizePath this P] ∧
     getAllFiles this σ' =
       getAllFiles this σ ++
       [fastPath_resolve (rootDir this) (_normalizePath this P)]).
Proof.
  intros σ'. subst σ'.
  unfold getAllFiles, getAbsoluteFileIterator, getFileIterator, addOrModify, stored.
  rewrite map_entries_update. split.
  - intros [r Hr]. by rewrite (keys_set_present _ _ _ _ Hr).
  - intros Hnone. rewrite (keys_set_absent _ _ _ Hnone).
    by rewrite map_app.
Qed.

(** X6.  The last write wins: [addOrModify(P, R1)] followed by
    [addOrModify(P, R2)] leaves the heap as [addOrModify(P, R2)] alone
    does. *)
Theorem addOrModify_last_write_wins this P (R1 R2 : loc) σ :
  addOrModify this P R2 (addOrModify this P R1 σ) = addOrModify this P R2 σ.
Proof.
  unfold addOrModify. rewrite map_entries_update, set_set.
  unfold map_update; simpl. f_equal. apply insert_insert_eq.
Qed.

(** X7.  Adding and removing undo each other: when the normalized path is
    not a key of the (allocated) file map, [remove(P)] right after
    [addOrModify(P, R)] returns [R] and leaves the heap as it was before
    the two calls. *)
Theorem addOrModify_remove_round_trip this P (R : loc) σ :
  is_Some (maps σ !! files this) →
  stored this σ P = None →
  remove this P (addOrModify this P R σ) = (Some R, σ).
Proof.
  intros [entries Hmap] Hnone. unfold remove, addOrModify.
  rewrite map_entries_update, get_set_eq.
  rewrite delete_set_absent by done.
  f_equal. unfold map_update; simpl.
  rewrite insert_insert_eq.
  destruct σ as [arr mps]; simpl in *. f_equal.
  apply insert_id. unfold map_entries; simpl.
  by rewrite (lookup_total_correct _ _ _ Hmap).
Qed.

(** X8.  The mutators keep the file-map invariant under the preconditions
    the code relies on: [remove] always keeps every key canonical;
    [addOrModify(P, R)] does when the normalized [P] is itself canonical;
    [bulkAddOrModify], which stores keys as given, does when every key of
    [changedFiles] is canonical. *)
Theorem mutators_keep_canonical_keys this P (R : loc) changedFiles σ :
  canonical_keys this σ →
  canonical_keys this (remove this P σ).2 ∧
  (_normalizePath this (_normalizePath this P) = _normalizePath this P →
     canonical_keys this (addOrModify this P R σ)) ∧
  (Forall (λ k, _normalizePath this k = k)
     (JSMap.keys (map_entries σ changedFiles)) →
     canonical_keys this (bulkAddOrModify this changedFiles σ)).
Proof.
  unfold canonical_keys, getFileIterator. rewrite !Forall_forall.
  intros Hcan. split_and!.
  - unfold remove. destruct (JSMap.get _ _); simpl; [|done].
    rewrite map_entries_update.
    intros k [Hin _]%keys_delete_subset. by apply Hcan.
  - intros Hidem. unfold addOrModify. rewrite map_entries_update.
    intros k [->|Hin]%keys_set_subset; [done|by apply Hcan].
  - intros Hchanged. rewrite map_entries_bulkAddOrModify.
    intros k [Hin|Hin]%keys_fold_set_subset; [by apply Hcan|by apply Hchanged].
Qed.
End Mutators.

Lemma bulkAddOrModify_lookup_witness :
  exists_ (path:=posix) example_fs "src/new.js"
    (bulkAddOrModify example_fs 2%positive example_heap_with_changes) = true.
Proof.
  apply (bulkAddOrModify_lookup (path:=posix) example_fs 2%positive
           example_heap_with_changes) with (r := 2%positive).
  - apply (bool_decide_unpack _). by vm_compute.
  - reflexivity.
Defined.

Lemma bulkAddOrModify_iteration_order_witness :
  getFileIterator example_fs
    (bulkAddOrModify example_fs 2%positive example_heap_with_changes)
  = ["src/a.js"; "src/sub/b.js"; "link.js"; "src/new.js"].
Proof.
  rewrite (bulkAddOrModify_iteration_order example_fs 2%positive
             example_heap_with_changes).
  - reflexivity.
  - apply (bool_decide_unpack _). by vm_compute.
Defined.

Lemma addOrModify_other_paths_witness :
  getSize (path:=posix) (H:=layout) example_fs "/proj/src/a.js"
    (addOrModify (path:=posix) example_fs "/proj/src/new.js" 2%positive example_heap)
  = getSize (path:=posix) (H:=layout) example_fs "/proj/src/a.js" example_heap.
Proof.
  apply (addOrModify_other_paths (path:=posix) (H:=layout)
           example_fs "/proj/src/new.js" 2%positive "/proj/src/a.js" example_heap).
  - discriminate.
  - discriminate.
Defined.

Lemma remove_other_paths_witness :
  getSize (path:=posix) (H:=layout) example_fs "/proj/src/a.js"
    (remove (path:=posix) example_fs "/proj/link.js" example_heap).2
  = getSize (path:=posix) (H:=layout) example_fs "/proj/src/a.js" example_heap.
Proof.
  apply (remove_other_paths (path:=posix) (H:=layout)
           example_fs "/proj/link.js" "/proj/src/a.js" example_heap).
  - discriminate.
  - discriminate.
Defined.

Lemma addOrModify_iteration_order_witness :
  getAllFiles (path:=posix) example_fs
    (addOrModify (path:=posix) example_fs "/proj/src/new.js" 2%positive example_heap)
  = getAllFiles (path:=posix) example_fs example_heap ++ ["/proj/src/new.js"].
Proof.
  apply (addOrModify_iteration_order (path:=posix)
           example_fs "/proj/src/new.js" 2%positive example_heap).
  reflexivity.
Defined.

Lemma addOrModify_remove_round_trip_witness :
  remove (path:=posix) example_fs "/proj/src/new.js"
    (addOrModify (path:=posix) example_fs "/proj/src/new.js" 2%positive example_heap)
  = (Some 2%positive, example_heap).
Proof.
  apply (addOrModify_remove_round_trip (path:=posix)
           example_fs "/proj/src/new.js" 2%positive example_heap).
  - by eexists.
  - reflexivity.
Defined.

Lemma mutators_keep_canonical_keys_witness :
  canonical_keys (path:=posix) example_fs
    (remove (path:=posix) example_fs "/proj/src/a.js" example_heap_with_changes).2 ∧
  canonical_keys (path:=posix) example_fs
    (addOrModify (path:=posix) example_fs "/proj/src/new.js" 2%positive
       example_heap_with_changes) ∧
  canonical_keys (path:=posix) example_fs
    (bulkAddOrModify example_fs 2%positive example_heap_with_changes).
Proof.
  destruct (mutators_keep_canonical_keys (path:=posix) example_fs
              "/proj/src/a.js" 2%positive 2%positive example_heap_with_changes)
    as (Hremove & _ & Hbulk).
  { canonical_by_computation. }
  destruct (mutators_keep_canonical_keys (path:=posix) example_fs
              "/proj/src/new.js" 2%positive 2%positive example_heap_with_changes)
    as (_ & Hadd & _).
  { canonical_by_computation. }
  split_and!.
  - exact Hremove.
  - apply Hadd. reflexivity.
  - apply Hbulk. by repeat constructor.
Defined.

Lemma keys_delete {V} k (m : list (string * V)) :
  JSMap.keys (JSMap.delete k m) =
  List.filter (λ k', negb (String.eqb k k')) (JSMap.keys m).
Proof.
  induction m as [|[k0 v0] m IH]; simpl; [done|].
  destruct (String.eqb k k0); simpl; [done|]. f_equal. exact IH.
Qed.

Lemma filter_neq_length (k : string) (l : list string) :
  NoDup l → k ∈ l →
  S (length (List.filter (λ k', negb (String.eqb k k')) l)) = length l.
Proof.
  induction l as [|k0 l IH]; [by intros _ ?%elem_of_nil|].
  intros [Hk0 Hnd]%NoDup_cons Hin. simpl.
  destruct (String.eqb_spec k k0) as [->|Hne]; simpl.
  - f_equal. clear IH Hin Hnd.
    induction l as [|k1 l IH]; simpl; [done|].
    apply not_elem_of_cons in Hk0 as [Hne Hk0].
    destruct (String.eqb_spec k0 k1); [done|]. simpl. f_equal. by apply IH.
  - f_equal. apply IH; [done|].
    apply elem_of_cons in Hin as [?|?]; done.
Qed.

Section SplitMoreFacts.
Variable d : ascii.

Lemma split_nonempty (s : string) : JSString.split s d ≠ [].
Proof.
  destruct s as [|c s]; simpl; [done|].
  destruct (Ascii.eqb c d); [done|]. by destruct (JSString.split s d).
Qed.

(** Joining what [split] cut gives the string back. *)
Lemma join_split (s : string) : JSString.join (JSString.split s d) d = s.
Proof.
  induction s as [|c s IH]; simpl; [done|].
  pose proof (split_nonempty s) as Hne.
  destruct (Ascii.eqb_spec c d) as [->|Hc].
  - destruct (JSString.split s d) as [|h t] eqn:Hs; [done|].
    change (JSString.join ("" :: h :: t) d)
      with ("" +:+ String d (JSString.join (h :: t) d)).
    simpl. by rewrite <- IH.
  - destruct (JSString.split s d) as [|h t] eqn:Hs; [done|].
    destruct t as [|h' t]; simpl in *; by rewrite <- IH.
Qed.

Lemma split_free (s : string) :
  Forall (λ p, JSString.free_of d p = true) (JSString.split s d).
Proof.
  induction s as [|c s IH]; simpl; [by repeat constructor|].
  destruct (Ascii.eqb c d) eqn:Hc; [by constructor|].
  destruct (JSString.split s d) as [|h t]; simpl.
  - repeat constructor. simpl. by rewrite Hc.
  - apply Forall_cons in IH as [Hh Ht]. constructor; [|done].
    simpl. by rewrite Hc.
Qed.
End SplitMoreFacts.

(** ** More on the point queries and the iterators *)

Section MoreQueries.
Context `{path : PathModule} `{H : Constants}.
Implicit Types (this : HasteFS) (σ : Heap) (P Q : Path).

(** X9.  Iteration order after [remove(P)]: the remaining keys keep their
    order, only the normalized [P] is gone; when it was a key (of a map
    without repeated keys) there is exactly one key less. *)
Theorem remove_iteration_order this P σ :
  let σ' := (remove this P σ).2 in
  getFileIterator this σ' =
    List.filter (λ k, negb (String.eqb (_normalizePath this P) k))
      (getFileIterator this σ) ∧
  (NoDup (getFileIterator this σ) → is_Some (stored this σ P) →
     S (length (getFileIterator this σ')) = length (getFileIterator this σ)).
Proof.
  intros σ'.
  assert (Hkeys : getFileIterator this σ' =
    List.filter (λ k, negb (String.eqb (_normalizePath this P) k))
      (getFileIterator this σ)).
  { subst σ'. unfold remove, getFileIterator.
    destruct (JSMap.get _ _) as [r|] eqn:Hget; simpl.
    - by rewrite map_entries_update, keys_delete.
    - apply get_None_keys in Hget. symmetry.
      apply forallb_filter_id, forallb_forall.
      intros k Hin%list_elem_of_In. apply negb_true_iff, String.eqb_neq.
      by intros <-. }
  split; [done|].
  intros Hnd [r Hr]. rewrite Hkeys.
  apply filter_neq_length; [done|]. by eapply get_Some_keys.
Qed.

(** X10.  [exists] and the keys: a path that is a key as given exists; on
    a file map whose keys are all canonical, [exists(P)] is [true] exactly
    when the normalized [P] is one of the keys [getFileIterator] yields. *)
Theorem exists_iff_iterated this P σ :
  (P ∈ getFileIterator this σ → exists_ this P σ = true) ∧
  (canonical_keys this σ →
     (exists_ this P σ = true ↔ _normalizePath this P ∈ getFileIterator this σ)).
Proof.
  unfold getFileIterator. split.
  - intros Hin. unfold exists_, _getFileData.
    destruct (JSMap.get P _) eqn:Hget; [done|].
    by apply get_None_keys in Hget.
  - intros Hcan. unfold exists_. rewrite getFileData_stored by done.
    unfold stored.
    destruct (JSMap.get (_normalizePath this P) _) as [r|] eqn:Hget.
    + split; [|done]. intros _. by eapply get_Some_keys.
    + apply get_None_keys in Hget. split; [done|]. by intros ?.
Qed.

(** X11.  A [null] from [getDependencies] or from [linkStats] means the
    file is unknown, and nothing else does: each is [null] exactly when
    [exists] is [false], in which case the three getters are [null] too. *)
Theorem null_results_agree this P σ :
  (getDependencies this P σ = Return None ↔ exists_ this P σ = false) ∧
  (linkStats this P σ = Return None ↔ exists_ this P σ = false) ∧
  (exists_ this P σ = false →
     getModuleName this P σ = VNull ∧
     getSize this P σ = VNull ∧
     getSha1 this P σ = VNull).
Proof.
  unfold getDependencies, linkStats, exists_, getModuleName, getSize, getSha1,
    field_or_null.
  destruct (_getFileData this P σ) as [r|]; [|done].
  split_and!; [| |done].
  - split; [|done].
    destruct (truthy _); [|done]. by destruct (array_get σ r DEPENDENCIES).
  - split; [|done]. unfold invariant. by destruct (typeof_number _).
Qed.

(** X12.  [getDependencies] loses nothing: for a file whose dependency
    field is a non-empty string, the result is a non-empty array of
    specifiers free of the delimiter, and joining them with the delimiter
    gives the stored string back. *)
Theorem getDependencies_join this P σ (r : loc) deps :
  _getFileData this P σ = Some r →
  array_get σ r DEPENDENCIES = VString deps →
  deps ≠ "" →
  ∃ parts,
    getDependencies this P σ = Return (Some parts) ∧
    parts ≠ [] ∧
    Forall (λ p, JSString.free_of DEPENDENCY_DELIM p = true) parts ∧
    JSString.join parts DEPENDENCY_DELIM = deps.
Proof.
  intros Hdata Hdeps Hne. exists (JSString.split deps DEPENDENCY_DELIM).
  split_and!.
  - unfold getDependencies. rewrite Hdata, Hdeps. simpl.
    by apply String.eqb_neq in Hne as ->.
  - apply split_nonempty.
  - apply split_free.
  - apply join_split.
Qed.
End MoreQueries.

Lemma remove_iteration_order_witness :
  S (length (getFileIterator example_fs
               (remove (path:=posix) example_fs "/proj/src/a.js" example_heap).2))
  = length (getFileIterator example_fs example_heap).
Proof.
  apply (remove_iteration_order (path:=posix) example_fs "/proj/src/a.js"
           example_heap).
  - apply (bool_decide_unpack _). by vm_compute.
  - by eexists.
Defined.

Lemma exists_iff_iterated_witness :
  exists_ (path:=posix) example_fs "/proj/src/a.js" example_heap = true.
Proof.
  apply (exists_iff_iterated (path:=posix) example_fs "/proj/src/a.js"
           example_heap).
  - canonical_by_computation.
  - apply (bool_decide_unpack _). by vm_compute.
Defined.

Lemma null_results_agree_witness :
  getModuleName (path:=posix) (H:=layout) example_fs "nowhere.js" example_heap
  = VNull.
Proof.
  apply (null_results_agree (path:=posix) (H:=layout) example_fs "nowhere.js"
           example_heap).
  reflexivity.
Defined.

Lemma getDependencies_join_witness :
  ∃ parts,
    getDependencies (path:=posix) (H:=layout) example_fs "src/a.js" example_heap
      = Return (Some parts) ∧
    parts ≠ [] ∧
    Forall (λ p, JSString.free_of "000"%char p = true) parts ∧
    JSString.join parts "000"%char = JSString.join ["b.js"; "c.js"] "000"%char.
Proof.
  apply (getDependencies_join (path:=posix) (H:=layout) example_fs "src/a.js"
           example_heap 1%positive).
  - reflexivity.
  - reflexivity.
  - discriminate.
Defined.

(** ** Pattern queries *)

Lemma JSSet_has_elem_of (x : string) (s : list string) :
  JSSet.has x s = true ↔ x ∈ s.
Proof.
  induction s as [|y s IH]; simpl.
  - split; [done | by intros ?%elem_of_nil].
  - rewrite orb_true_iff, elem_of_cons, IH.
    destruct (String.eqb_spec x y) as [->|Hne]; split.
    + by left.
    + by left.
    + by intros [?|?]; [|right].
    + by intros [?|?]; [|right].
Qed.

Lemma JSSet_add_elem_of (x y : string) (s : list string) :
  y ∈ JSSet.add x s ↔ y = x ∨ y ∈ s.
Proof.
  unfold JSSet.add. destruct (JSSet.has x s) eqn:Hhas.
  - apply JSSet_has_elem_of in Hhas. split; [by right|].
    by intros [->|?].
  - rewrite elem_of_app, list_elem_of_singleton. tauto.
Qed.

Lemma JSSet_add_NoDup (x : string) (s : list string) :
  NoDup s → NoDup (JSSet.add x s).
Proof.
  intros Hnd. unfold JSSet.add. destruct (JSSet.has x s) eqn:Hhas; [done|].
  apply NoDup_app. split_and!; [done| |apply NoDup_singleton].
  intros y Hy ->%list_elem_of_singleton.
  apply JSSet_has_elem_of in Hy. congruence.
Qed.

Lemma filter_sublist_impl {A} (p q : A → bool) (l : list A) :
  (∀ x, p x = true → q x = true) →
  sublist (List.filter p l) (List.filter q l).
Proof.
  intros Himp. induction l as [|x l IH]; simpl; [constructor|].
  destruct (p x) eqn:Hp.
  - rewrite (Himp x Hp). by constructor.
  - destruct (q x); [by constructor|done].
Qed.

Lemma filter_sublist {A} (p : A → bool) (l : list A) :
  sublist (List.filter p l) l.
Proof.
  induction l as [|x l IH]; simpl; [constructor|].
  destruct (p x); by constructor.
Qed.

Section PatternFacts.
Context `{path : PathModule} `{engine : RegExpEngine} `{jest : JestUtil}.
Implicit Types (this : HasteFS) (σ : Heap).

Lemma matchFiles_loop_filter regexpPattern iterator files :
  global_or_sticky regexpPattern = false →
  matchFiles_loop regexpPattern iterator files =
  (files ++ List.filter (λ file, satisfies file regexpPattern) iterator,
   regexpPattern).
Proof.
  intros Hflags.
  revert files. induction iterator as [|file rest IH]; intros files; simpl.
  - by rewrite app_nil_r.
  - rewrite test_without_flags by done.
    destruct (satisfies file regexpPattern); rewrite IH; [|done].
    by rewrite <- app_assoc.
Qed.

(** X13.  [matchFiles] with a regular expression without the [g] and [y]
    flags returns, in file-map iteration order, exactly the absolute
    paths that satisfy the expression, and leaves the expression as it
    was.  With a string it compiles the string first: if that succeeds
    the result is that of the compiled expression, which has no flags,
    and if it throws, the error is the outcome of [matchFiles]. *)
Theorem matchFiles_filter this σ :
  (∀ r, global_or_sticky r = false →
     matchFiles this (PatternRegExp r) σ =
     Return (List.filter (λ file, satisfies file r) (getAllFiles this σ), r)) ∧
  (∀ source matcher, RegExp_compile source = Return matcher →
     ∃ r, RegExp_new source = Return r ∧
          global_or_sticky r = false ∧
          exec_at r = matcher ∧
          matchFiles this (PatternString source) σ =
          Return (List.filter (λ file, satisfies file r) (getAllFiles this σ), r)) ∧
  (∀ source message, RegExp_compile source = Throw message →
     matchFiles this (PatternString source) σ = Throw message).
Proof.
  unfold matchFiles, getAllFiles, RegExp_new. split_and!.
  - intros r Hflags. by rewrite matchFiles_loop_filter.
  - intros source matcher ->. eexists. split_and!; [done..|].
    by rewrite matchFiles_loop_filter.
  - by intros source message ->.
Qed.

Lemma matchFilesWithGlob_loop_spec matcher root iterator files :
  NoDup files →
  NoDup (matchFilesWithGlob_loop matcher root iterator files) ∧
  ∀ f, f ∈ matchFilesWithGlob_loop matcher root iterator files ↔
       f ∈ files ∨
       (f ∈ iterator ∧
        matcher (replacePathSepForGlob
                   (match root with
                    | Some root => fastPath_relative root f
                    | None => f
                    end)) = true).
Proof.
  revert files. induction iterator as [|file rest IH]; intros files Hnd; simpl.
  - split; [done|]. intros f. split; [by left|].
    by intros [?|[?%elem_of_nil _]].
  - destruct (matcher _) eqn:Hm.
    + destruct (IH (JSSet.add file files) (JSSet_add_NoDup _ _ Hnd))
        as [Hnd' Hin].
      split; [done|]. intros f. rewrite Hin, JSSet_add_elem_of, elem_of_cons.
      split.
      * intros [[->|?]|[? ?]]; [right|left|right]; auto.
      * intros [?|[[->|?] ?]]; [left; right|left; left|right]; auto.
    + destruct (IH files Hnd) as [Hnd' Hin].
      split; [done|]. intros f. rewrite Hin, elem_of_cons.
      split.
      * intros [?|[? ?]]; [left|right]; auto.
      * intros [?|[[->|?] Hf]]; [left|congruence|right]; auto.
Qed.

(** X14.  [matchFilesWithGlob]: when the globs compile to a matcher, the
    result is a set (no path twice) that holds exactly the absolute paths
    of the index whose subject the matcher accepts; the subject is the
    path relative to [root] when a root is given and the absolute path
    itself when it is [null], with the separators replaced for the glob.
    When the globs do not compile, the error is the outcome. *)
Theorem matchFilesWithGlob_members this globs root σ :
  (∀ matcher, globsToMatcher globs = Return matcher →
     ∃ files,
       matchFilesWithGlob this globs root σ = Return files ∧
       NoDup files ∧
       ∀ f, f ∈ files ↔
            f ∈ getAllFiles this σ ∧
            matcher (replacePathSepForGlob
                       (match root with
                        | Some root => fastPath_relative root f
                        | None => f
                        end)) = true) ∧
  (∀ message, globsToMatcher globs = Throw message →
     matchFilesWithGlob this globs root σ = Throw message).
Proof.
  unfold matchFilesWithGlob, getAllFiles. split.
  - intros matcher ->. eexists. split; [done|].
    destruct (matchFilesWithGlob_loop_spec matcher root
                (getAbsoluteFileIterator this σ) [] (NoDup_nil_2))
      as [Hnd Hin].
    split; [done|]. intros f. rewrite Hin. split.
    + by intros [?%elem_of_nil|?].
    + by right.
  - by intros message ->.
Qed.

(** X15.  Scope of a context query: for any root and any filter without
    the [g] and [y] flags, the files a non-recursive query returns are
    among those the recursive query returns, in the same order, and those
    are among [getAllFiles()], in the same order. *)
Theorem matchFilesWithContext_scope this root (filter : RegExp) σ :
  global_or_sticky filter = false →
  sublist
    (matchFilesWithContext this root
       {| recursive := false; filter_ := filter |} σ).1
    (matchFilesWithContext this root
       {| recursive := true; filter_ := filter |} σ).1 ∧
  sublist
    (matchFilesWithContext this root
       {| recursive := true; filter_ := filter |} σ).1
    (getAllFiles this σ).
Proof.
  intros Hflags. unfold matchFilesWithContext, getAllFiles. simpl.
  rewrite !matchFilesWithContext_loop_filter by done. simpl. split.
  - apply filter_sublist_impl. intros file. simpl.
    by destruct (String.eqb _ _), (JSString.startsWith _ _),
         (JSString.includes _ _), (satisfies _ _).
  - apply filter_sublist.
Qed.
End PatternFacts.

Lemma matchFiles_filter_witness :
  (∃ r, matchFiles (path:=posix) (engine:=example_engine) example_fs
          (PatternString "^/proj/src/") example_heap
        = Return (["/proj/src/a.js"; "/proj/src/sub/b.js"], r)) ∧
  matchFiles (path:=posix) (engine:=example_engine) example_fs
    (PatternString "(") example_heap
  = Throw "Invalid regular expression: /(/: Unterminated group" ∧
  matchFiles (path:=posix) (engine:=example_engine) example_fs
    (PatternRegExp any_subject) example_heap
  = Return ([], any_subject).
Proof.
  destruct (matchFiles_filter (path:=posix) (engine:=example_engine)
              example_fs example_heap) as (Hregexp & Hok & Hthrow).
  split_and!.
  - destruct (Hok "^/proj/src/"
                (λ i s, if Nat.eqb i 0 && JSString.startsWith s "/proj/src/"
                        then Some 10 else None) eq_refl)
      as (r & Hnew & _ & _ & Hr).
    injection Hnew as <-. eexists. rewrite Hr. reflexivity.
  - apply Hthrow. reflexivity.
  - rewrite (Hregexp any_subject); reflexivity.
Defined.

Lemma matchFilesWithContext_scope_witness :
  sublist
    (matchFilesWithContext (path:=posix) example_fs "/proj/src"
       {| recursive := false; filter_ := any_subject |} example_heap).1
    (matchFilesWithContext (path:=posix) example_fs "/proj/src"
       {| recursive := true; filter_ := any_subject |} example_heap).1.
Proof.
  apply (matchFilesWithContext_scope (path:=posix) example_fs "/proj/src"
           any_subject example_heap).
  reflexivity.
Defined.

Lemma matchFilesWithGlob_members_witness :
  ∃ files,
    matchFilesWithGlob (path:=posix) (jest:=example_jest) example_fs
      ["**/*b.js"] None example_heap = Return files ∧
    NoDup files ∧
    ∀ f, f ∈ files ↔
         f ∈ getAllFiles (path:=posix) example_fs example_heap ∧
         endsWith (JSString.replace_backslashes f) "b.js" || false = true.
Proof.
  destruct (matchFilesWithGlob_members (path:=posix) (jest:=example_jest)
              example_fs ["**/*b.js"] None example_heap) as [Hok _].
  apply (Hok (λ subject,
                existsb (λ glob, endsWith subject (JSString.substr glob 4))
                  ["**/*b.js"])).
  reflexivity.
Defined.

(** ** Several indexes on one heap *)

Section Isolation.
Context `{path : PathModule} `{H : Constants}.
Implicit Types (this other : HasteFS) (σ : Heap) (P Q : Path).

Lemma mutator_frame this other s σ :
  files other ≠ files this →
  step_on (files this) (λ _, False) s →
  map_entries (run_step σ s) (files other) = map_entries σ (files other) ∧
  arrays (run_step σ s) = arrays σ.
Proof.
  intros Hne Hs.
  destruct (run_step_frame (files this) (λ _, False) s σ Hs) as [Hm Ha].
  split.
  - apply map_entries_lookup. by apply Hm.
  - apply map_eq. intros r. apply Ha. tauto.
Qed.

(** X16.  Indexes over different maps do not interfere: a call of
    [addOrModify], [bulkAddOrModify] or [remove] on one index changes no
    record and no other map, so every point query of an index over
    another map answers after the call as it did before. *)
Theorem mutators_leave_other_indexes this other σ s :
  files other ≠ files this →
  (∃ P R, s = CallAddOrModify this P R) ∨
  (∃ changedFiles, s = CallBulkAddOrModify this changedFiles) ∨
  (∃ P, s = CallRemove this P) →
  let σ' := run_step σ s in
  arrays σ' = arrays σ ∧
  map_entries σ' (files other) = map_entries σ (files other) ∧
  ∀ Q,
    exists_ other Q σ' = exists_ other Q σ ∧
    getModuleName other Q σ' = getModuleName other Q σ ∧
    getSize other Q σ' = getSize other Q σ ∧
    getSha1 other Q σ' = getSha1 other Q σ ∧
    getDependencies other Q σ' = getDependencies other Q σ ∧
    linkStats other Q σ' = linkStats other Q σ.
Proof.
  intros Hne Hs σ'.
  assert (Hon : step_on (files this) (λ _, False) s).
  { by destruct Hs as [(P & R & ->)|[(c & ->)|(P & ->)]]. }
  destruct (mutator_frame this other s σ Hne Hon) as [Hmap Harr].
  fold σ' in Hmap, Harr. split_and!; [done..|].
  intros Q. apply point_queries_same_data; [|done].
  unfold _getFileData. by rewrite Hmap.
Qed.

Lemma snapshot_facts this σ :
  index_wf this σ →
  let snap := (getSerializableSnapshot this σ).1 in
  let σ' := (getSerializableSnapshot this σ).2 in
  is_Some (maps σ' !! snap) ∧
  JSMap.keys (map_entries σ' snap) = JSMap.keys (map_entries σ (files this)) ∧
  Forall (λ r, is_Some (arrays σ' !! r)) (records σ' snap).
Proof.
  intros (Hmap & Hnodup & Hrecs) snap σ'.
  unfold getSerializableSnapshot in snap, σ'.
  destruct (copy_entries (map_entries σ (files this)) σ) as [pairs σ1] eqn:Hcopy.
  apply copy_entries_spec in Hcopy as (Hmaps & Hsub & Hcopied & Hnew & Hnd).
  2: { unfold records in Hrecs. by rewrite Forall_fmap in Hrecs. }
  simpl in snap, σ'.
  assert (Hkeys : JSMap.keys pairs = JSMap.keys (map_entries σ (files this))).
  { by eapply copied_keys. }
  assert (Hsnap_entries : map_entries σ' snap = pairs).
  { subst σ'. unfold map_entries. simpl. fold snap.
    rewrite lookup_total_insert_eq. apply of_entries_nodup. by rewrite Hkeys. }
  split_and!.
  - subst σ'. simpl. fold snap. rewrite lookup_insert_eq. by eexists.
  - by rewrite Hsnap_entries.
  - unfold records. rewrite Hsnap_entries, Forall_fmap.
    clear -Hcopied. induction Hcopied as [|e e' l k [_ He'] _ IH]; constructor.
    + by eexists.
    + done.
Qed.

(** X17.  A snapshot can be fed back into construction: the index built
    on the snapshot of a live index, with the same root directory, is
    live again (allocated map and records, no key twice), and its keys
    are all canonical when those of the original are. *)
Theorem snapshot_index_well_formed this σ :
  index_wf this σ →
  let snap := (getSerializableSnapshot this σ).1 in
  let σ' := (getSerializableSnapshot this σ).2 in
  let that := constructor (rootDir this) snap in
  index_wf that σ' ∧
  getFileIterator that σ' = getFileIterator this σ ∧
  (canonical_keys this σ → canonical_keys that σ').
Proof.
  intros Hwf snap σ' that.
  destruct (snapshot_facts this σ Hwf) as (Hmap & Hkeys & Hrecs).
  fold snap σ' in Hmap, Hkeys, Hrecs.
  split_and!.
  - split_and!; [done| |done].
    simpl. rewrite Hkeys. apply Hwf.
  - done.
  - unfold canonical_keys, getFileIterator. simpl. by rewrite Hkeys.
Qed.
End Isolation.

Lemma mutators_leave_other_indexes_witness :
  getSize (path:=posix) (H:=layout) {| rootDir := "/changes"; files := 2%positive |}
    "src/new.js"
    (run_step (path:=posix) example_heap_with_changes
       (CallRemove example_fs "/proj/src/a.js"))
  = getSize (path:=posix) (H:=layout)
      {| rootDir := "/changes"; files := 2%positive |}
      "src/new.js" example_heap_with_changes.
Proof.
  apply (mutators_leave_other_indexes (path:=posix) (H:=layout) example_fs
           {| rootDir := "/changes"; files := 2%positive |}
           example_heap_with_changes (CallRemove example_fs "/proj/src/a.js")).
  - discriminate.
  - right. right. by eexists.
Defined.

Lemma snapshot_index_well_formed_witness :
  getFileIterator
    (constructor (rootDir example_fs)
       (getSerializableSnapshot example_fs example_heap).1)
    (getSerializableSnapshot example_fs example_heap).2
  = getFileIterator example_fs example_heap.
Proof.
  apply (snapshot_index_well_formed (path:=posix) example_fs example_heap).
  split_and!.
  - by eexists.
  - apply (bool_decide_unpack _). by vm_compute.
  - repeat constructor; by eexists.
Defined.

(** ** Loading an index in bulk *)

Section BulkLoad.
Context `{path : PathModule} `{H : Constants}.
Implicit Types (this : HasteFS) (σ : Heap).

(** X18.  Loading an empty index: [bulkAddOrModify] on an index whose
    file map is empty makes the file map an exact copy of [changedFiles],
    with the same keys in the same order, each referring to the same
    record, so the two maps have the same contents and [getAllFiles()]
    lists the keys of [changedFiles] in their order. *)
Theorem bulkAddOrModify_into_empty this changedFiles σ :
  NoDup (JSMap.keys (map_entries σ changedFiles)) →
  map_entries σ (files this) = [] →
  let σ' := bulkAddOrModify this changedFiles σ in
  map_entries σ' (files this) = map_entries σ changedFiles ∧
  contents σ' (files this) = contents σ changedFiles ∧
  getAllFiles this σ' =
    map (fastPath_resolve (rootDir this)) (JSMap.keys (map_entries σ changedFiles)).
Proof.
  intros Hnd Hempty σ'.
  assert (Hentries : map_entries σ' (files this) = map_entries σ changedFiles).
  { subst σ'. rewrite map_entries_bulkAddOrModify, Hempty.
    by apply (fold_set_nodup _ []). }
  assert (Harr : arrays σ' = arrays σ).
  { apply (bulk_fold_frame (files this) (map_entries σ changedFiles) σ). }
  split_and!.
  - done.
  - unfold contents. by rewrite Hentries, Harr.
  - unfold getAllFiles, getAbsoluteFileIterator, getFileIterator.
    by rewrite Hentries.
Qed.
End BulkLoad.

Lemma bulkAddOrModify_into_empty_witness :
  map_entries
    (bulkAddOrModify {| rootDir := "/proj"; files := 3%positive |} 1%positive
       example_heap_with_empty_map) 3%positive
  = map_entries example_heap_with_empty_map 1%positive.
Proof.
  apply (bulkAddOrModify_into_empty (path:=posix)
           {| rootDir := "/proj"; files := 3%positive |} 1%positive
           example_heap_with_empty_map).
  - apply (bool_decide_unpack _). by vm_compute.
  - reflexivity.
Defined.
